(** * AI Video Finder: the query cache, the normalizer and the presentation state

    A shallow embedding of

    - [models/video-info.model.ts]   (module [Model]),
    - [services/gemini.service.ts]   (module [GeminiService]),
    - [app.component.ts]             (module [AppComponent]),

    together with a partial model of the runtime's [URL] class (module
    [WHATWG]) that is used to evaluate the code on concrete inputs.

    Conventions.  A JavaScript [string] is a [string]; an optional field
    [f?: T] is an [option T]; a [number] is a rational [Q] (the code only
    subtracts two numbers and looks at the sign, which on non-NaN doubles
    agrees with the sign of the exact difference); an exception is an
    explicit failure value.  The in-memory [Map] of the service is a
    [gmap string _].  What the runtime or the external model provides
    ([new URL], [String.prototype.trim], [JSON.parse], [Date],
    [localeCompare], [generateContent]) is a [Variable] of the section
    that uses it, so every theorem holds for every such collaborator. *)

From Stdlib Require Import String Ascii List ZArith NArith QArith DecimalString Sorted Permutation Lia Lqa.
From stdpp Require Import gmap strings list.
Import ListNotations.

Local Open Scope string_scope.
Local Open Scope list_scope.

(* ===================================================================== *)
(** ** The data model ([video-info.model.ts]) *)
(* ===================================================================== *)

Module Model.

(** A single downloadable file or stream. *)
Record VideoVariant := mkVariant {
  url : string;
  format : string;
  resolution : option string;
  sizeMb : option Q;
  isProtected : option bool
}.

(** All variants of a single conceptual video. *)
Record VideoGroup := mkGroup {
  title : string;
  thumbnailUrl : option string;
  category : option string;
  uploadDate : option string;
  popularity : option Q;
  variants : list VideoVariant
}.

(** What the code reads from a [URL] object: the [protocol] and [href]
    getters. *)
Record URLObject := mkURL {
  protocol : string;
  href : string
}.

(** The type of the [URL] constructor, [new URL(input)] and
    [new URL(input, base)]; [None] is the [TypeError] it throws. *)
Definition URLConstructor := string -> option string -> option URLObject.

(** A thrown value, as far as the code looks at it: [e.message]. *)
Record Thrown := mkThrown { message : option string }.

(** The settled state of a promise returned by an [async] function. *)
Inductive Promise (A : Type) :=
| Resolved (value : A)
| Rejected (reason : Thrown).
Arguments Resolved {A} value.
Arguments Rejected {A} reason.

(** [new Error(msg)] *)
Definition Error (msg : string) : Thrown := mkThrown (Some msg).

(** JavaScript truthiness of a string: every string but the empty one. *)
Definition truthy (s : string) : bool := negb (String.eqb s "").

(** [x || d] for an optional string [x]. *)
Definition or_else (x : option string) (d : string) : string :=
  match x with
  | Some s => if truthy s then s else d
  | None => d
  end.

End Model.

(* ===================================================================== *)
(** ** The service ([gemini.service.ts]) *)
(* ===================================================================== *)

Module GeminiService.
Import Model.

(** The response of [generateContent]: its [text] getter, which may be
    [undefined]. *)
Record GenerateContentResponse := mkResponse { text : option string }.

(** The external model.  [genAI n prompt] is what the [n]-th invocation
    ([n] counted from 0) answers to [prompt]; [None] is a rejected call.
    An unchanged collaborator is one that does not depend on [n]. *)
Definition GenAI := nat -> string -> option GenerateContentResponse.

Definition unchanged (genAI : GenAI) : Prop :=
  forall n m p, genAI n p = genAI m p.

(** The module-level [cache], and a ghost counter of the invocations of
    the external model. *)
Record ServiceState := mkService {
  cache : gmap string (list VideoGroup);
  calls : nat
}.

Definition initial : ServiceState := mkService ∅ 0.

(** The template literal of [findVideosInUrl]. *)
Definition prompt_head : string := "
      Analyze the provided URL as an expert in web video extraction. Your goal is to identify all playable videos, including those on complex platforms like YouTube or Facebook.

      Your instructions are:
      1.  **Find All Video Sources:** Look for direct video links (.mp4, .webm) and streaming manifest files (.m3u8 for HLS, .mpd for DASH).
      2.  **Group Video Variants:** A single video is often available in multiple qualities. Group all these different files/streams under a single parent video object.
      3.  **Extract Metadata for Each Group:** For each conceptual video, find:
          - 'title', 'thumbnailUrl', 'category', 'uploadDate', 'popularity'.
      4.  **Detail Each Variant:** Within each group, list all available formats/qualities as 'variants'. Each variant must have:
          - 'url': The direct, absolute URL to the video file or manifest.
          - 'format': The file extension (e.g., 'mp4', 'm3u8').
          - 'resolution': A descriptive label for the quality (e.g., '1080p', 'Audio Only').
          - 'sizeMb': Estimated file size if available.
          - 'isProtected': A boolean. Set this to TRUE if the video URL domain is from a known streaming CDN (like 'googlevideo.com') OR if the URL contains security parameters like 'expire', 'sig', 'token', 'ei'. Otherwise, set it to FALSE or omit it. This is critical.

      URL: ".

Definition prompt_tail : string := "

      Return ONLY a valid JSON array of these grouped video objects. If no videos are found, return an empty array [].
    ".

Definition prompt (url : string) : string :=
  prompt_head +:+ url +:+ prompt_tail.

Definition failure_message : string :=
  "Failed to analyze the URL. The AI model could not process the request.".

Section Service.
(** [new URL(input, base)] *)
Variable URL : URLConstructor.
(** [String.prototype.trim] *)
Variable trim : string -> string.
(** [JSON.parse], typed by the annotation [const videoGroups:
    VideoGroup[]]; [None] is a [SyntaxError], or a value that is not an
    array of groups and makes the post-processing throw. *)
Variable JSON_parse : string -> option (list VideoGroup).
(** [this.genAI.models.generateContent] *)
Variable genAI : GenAI.

(** The callback of [group.variants.map]: the [try]/[catch] keeps the
    variant as it is when [new URL] throws. *)
Definition processVariant (url : string) (variant : VideoVariant) : VideoVariant :=
  match URL (Model.url variant) (Some url) with
  | Some absoluteUrl =>
      mkVariant (href absoluteUrl) (format variant) (resolution variant)
                (sizeMb variant) (isProtected variant)
  | None => variant
  end.

(** [group.thumbnailUrl ? new URL(group.thumbnailUrl, url).href : undefined];
    the outer [None] is the [TypeError] of [new URL], which no
    [try]/[catch] guards here. *)
Definition processThumbnail (url : string) (t : option string) : option (option string) :=
  match t with
  | Some s =>
      if truthy s then
        match URL s (Some url) with
        | Some u => Some (Some (href u))
        | None => None
        end
      else Some None
  | None => Some None
  end.

(** The callback of [videoGroups.map]; [None] when it throws. *)
Definition processGroup (url : string) (group : VideoGroup) : option VideoGroup :=
  let vs := map (processVariant url) (variants group) in
  match processThumbnail url (thumbnailUrl group) with
  | Some t =>
      Some (mkGroup (title group) t (category group) (uploadDate group)
                    (popularity group) vs)
  | None => None
  end.

(** The body of the [try] block up to [cache.set]: the processed
    groups, or [None] when anything in it throws. *)
Definition analyze (n : nat) (url : string) : option (list VideoGroup) :=
  match genAI n (prompt url) with
  | None => None
  | Some response =>
      match text response with
      | None => None
      | Some t =>
          match JSON_parse (trim t) with
          | None => None
          | Some videoGroups => mapM (processGroup url) videoGroups
          end
      end
  end.

(** [findVideosInUrl], one call run to completion. *)
Definition findVideosInUrl (url : string) (st : ServiceState)
  : Promise (list VideoGroup) * ServiceState :=
  match cache st !! url with
  | Some cached => (Resolved cached, st)
  | None =>
      match analyze (calls st) url with
      | Some processedGroups =>
          (Resolved processedGroups,
           mkService (<[url := processedGroups]> (cache st)) (S (calls st)))
      | None =>
          (Rejected (Error failure_message),
           mkService (cache st) (S (calls st)))
      end
  end.

End Service.

End GeminiService.

(* ===================================================================== *)
(** ** A partial model of the runtime's URL parser *)
(* ===================================================================== *)

(** The code calls [new URL(input)] and [new URL(input, base)], which run
    the basic URL parser of the WHATWG URL standard.  [WHATWG.URL_parse]
    follows that state machine on the fragment the application meets in
    practice: an [http], [https], [ftp], [ws] or [wss] URL, or a reference
    relative to one, with a plain lower-case-able ASCII domain, an optional
    port, and a path, query and fragment made of characters that no
    percent-encode set touches.  The answer has three values: [Parsed u]
    and [Failure] are what the standard's parser computes; [Unmodelled]
    marks an input outside the fragment (credentials, IP addresses,
    percent-escapes, internationalised domains, backslashes, [file:] and
    non-special schemes, characters that would be percent-encoded). *)

Module WHATWG.

Local Open Scope char_scope.
Local Open Scope N_scope.

Inductive outcome (A : Type) :=
| Parsed (a : A)
| Failure
| Unmodelled.
Arguments Parsed {A} a.
Arguments Failure {A}.
Arguments Unmodelled {A}.

Definition bind {A B} (x : outcome A) (k : A -> outcome B) : outcome B :=
  match x with
  | Parsed a => k a
  | Failure => Failure
  | Unmodelled => Unmodelled
  end.

(** A URL record of the fragment: the host is a domain, there are no
    credentials, and the path is a list of segments. *)
Record url_record := mkRecord {
  scheme : list ascii;
  host : list ascii;
  port : option N;
  path : list (list ascii);
  query : option (list ascii);
  fragment : option (list ascii)
}.

(** *** Code points *)

Definition code (c : ascii) : N := N_of_ascii c.
Definition between (lo hi : N) (c : ascii) : bool :=
  (lo <=? code c) && (code c <=? hi).
Definition is_char (a c : ascii) : bool := Ascii.eqb a c.
Definition one_of (cs : list ascii) (c : ascii) : bool :=
  existsb (is_char c) cs.

Definition is_digit : ascii -> bool := between 48 57.
Definition is_upper : ascii -> bool := between 65 90.
Definition is_lower : ascii -> bool := between 97 122.
Definition is_alpha (c : ascii) : bool := is_upper c || is_lower c.
Definition is_alnum (c : ascii) : bool := is_alpha c || is_digit c.
Definition is_hex_digit (c : ascii) : bool :=
  is_digit c || between 97 102 c || between 65 70 c.
Definition lower (c : ascii) : ascii :=
  if is_upper c then ascii_of_N (code c + 32) else c.

Definition c0_control_or_space : ascii -> bool := between 0 32.
Definition tab_or_newline (c : ascii) : bool :=
  (code c =? 9) || (code c =? 10) || (code c =? 13).

(** Forbidden host code points that can still stand in a host once the
    authority has been cut out, plus what makes them forbidden domain
    code points (C0 controls and DELETE). *)
Definition forbidden_domain (c : ascii) : bool :=
  between 0 32 c || one_of ["#"; "/"; ":"; "<"; ">"; "?"; "@"; "["; "\"; "]"; "^"; "|"; "%"] c
  || (code c =? 127).

(** Characters of a domain the model answers for. *)
Definition plain_host_char (c : ascii) : bool :=
  is_lower c || is_digit c || one_of ["-"; "."; "_"] c.

(** Characters that are in no percent-encode set and end no state. *)
Definition safe (c : ascii) : bool :=
  is_alnum c
  || one_of ["-"; "."; "_"; "~"; "!"; "$"; "&"; "("; ")"; "*"; "+"; ","; ";"; "="; ":"; "@"] c.
Definition query_ok (c : ascii) : bool := safe c || one_of ["/"; "?"] c.
Definition fragment_ok (c : ascii) : bool := safe c || one_of ["/"; "?"] c.

(** *** List helpers *)

Fixpoint drop_while (p : ascii -> bool) (s : list ascii) : list ascii :=
  match s with
  | c :: s' => if p c then drop_while p s' else s
  | [] => []
  end.

(** The longest prefix satisfying [p], and the rest. *)
Fixpoint span (p : ascii -> bool) (s : list ascii) : list ascii * list ascii :=
  match s with
  | c :: s' => if p c then let (a, b) := span p s' in (c :: a, b) else ([], s)
  | [] => ([], [])
  end.

Fixpoint starts_with (pre s : list ascii) : bool :=
  match pre, s with
  | [], _ => true
  | a :: pre', c :: s' => Ascii.eqb a c && starts_with pre' s'
  | _ :: _, [] => false
  end.

Definition list_eqb (a b : list ascii) : bool :=
  String.eqb (string_of_list_ascii a) (string_of_list_ascii b).

(** Strictly split on a separator. *)
Fixpoint split_on (sep : ascii) (s : list ascii) : list (list ascii) :=
  match s with
  | [] => [[]]
  | c :: s' =>
      if Ascii.eqb c sep then [] :: split_on sep s'
      else match split_on sep s' with
           | part :: parts => (c :: part) :: parts
           | [] => [[c]]
           end
  end.

(** *** Preprocessing and the scheme *)

Definition strip (s : list ascii) : list ascii :=
  rev (drop_while c0_control_or_space (rev (drop_while c0_control_or_space s))).

Definition preprocess (s : list ascii) : list ascii :=
  List.filter (fun c => negb (tab_or_newline c)) (strip s).

Definition scheme_char (c : ascii) : bool :=
  is_alnum c || one_of ["+"; "-"; "."] c.

(** Scheme start state and scheme state: [Some (scheme, remaining)] when
    the input starts with a scheme and a colon; otherwise the parser
    starts over in the no scheme state. *)
Definition split_scheme (s : list ascii) : option (list ascii * list ascii) :=
  match s with
  | c :: _ =>
      if is_alpha c then
        let (run, rest) := span scheme_char s in
        match rest with
        | ":" :: r => Some (map lower run, r)
        | _ => None
        end
      else None
  | [] => None
  end.

Definition str (s : string) : list ascii := list_ascii_of_string s.

(** The special schemes of the fragment and their default ports. *)
Definition default_port (sch : list ascii) : option N :=
  if list_eqb sch (str "http") then Some 80
  else if list_eqb sch (str "https") then Some 443
  else if list_eqb sch (str "ftp") then Some 21
  else if list_eqb sch (str "ws") then Some 80
  else if list_eqb sch (str "wss") then Some 443
  else None.

(** *** Authority: host and port *)

Definition ends_authority : ascii -> bool := one_of ["/"; "?"; "#"; "\"].
Definition is_slash : ascii -> bool := one_of ["/"; "\"].

(** The ends-in-a-number checker of the host parser. *)
Definition ends_in_number (d : list ascii) : bool :=
  let parts := split_on "." d in
  let parts := match rev parts with
               | [] :: (_ :: _) as more => rev more
               | _ => parts
               end in
  match rev parts with
  | last :: _ =>
      match last with
      | [] => false
      | "0" :: "x" :: digits =>
          forallb is_digit last || forallb is_hex_digit digits
      | _ => forallb is_digit last
      end
  | [] => false
  end.

(** The host parser on a special URL's host. *)
Definition parse_host (h : list ascii) : outcome (list ascii) :=
  match h with
  | [] => Failure
  | _ =>
      if existsb (fun c => (128 <=? code c) || is_char "%" c) h then Unmodelled
      else
        let d := map lower h in
        if existsb (starts_with (str "xn--")) (split_on "." d) then Unmodelled
        else if existsb forbidden_domain d then Failure
        else if ends_in_number d then Unmodelled
        else if forallb plain_host_char d then Parsed d
        else Unmodelled
  end.

Definition number (digits : list ascii) : N :=
  fold_left (fun acc c => acc * 10 + (code c - 48)) digits 0.

Definition parse_port (sch digits : list ascii) : outcome (option N) :=
  if forallb is_digit digits then
    match digits with
    | [] => Parsed None
    | _ =>
        let n := number digits in
        if 65535 <? n then Failure
        else if match default_port sch with Some d => n =? d | None => false end
             then Parsed None
             else Parsed (Some n)
    end
  else Failure.

(** Authority state, host state and port state: the host, the port and
    what follows the authority. *)
Definition parse_authority (sch s : list ascii)
  : outcome (list ascii * option N * list ascii) :=
  let (auth, rest) := span (fun c => negb (ends_authority c)) s in
  if existsb (one_of ["@"; "["; "]"]) auth then Unmodelled
  else
    let (h, p) := span (fun c => negb (is_char ":" c)) auth in
    bind (parse_host h) (fun d =>
      match p with
      | [] => Parsed (d, None, rest)
      | _ :: digits =>
          bind (parse_port sch digits) (fun n => Parsed (d, n, rest))
      end).

(** *** Path, query and fragment *)

(** What the path state does with the buffer at the end of a segment. *)
Definition end_segment (pth : list (list ascii)) (buf : list ascii) (slash : bool)
  : list (list ascii) :=
  if list_eqb buf (str "..") then
    if slash then removelast pth else removelast pth ++ [[]]
  else if list_eqb buf (str ".") then
    if slash then pth else pth ++ [[]]
  else pth ++ [buf].

(** Path state: the path, and the input from the [?] or [#] that ended
    it; [None] outside the fragment. *)
Fixpoint path_state (pth : list (list ascii)) (buf s : list ascii)
  : option (list (list ascii) * list ascii) :=
  match s with
  | [] => Some (end_segment pth buf false, [])
  | c :: s' =>
      if is_char "/" c then path_state (end_segment pth buf true) [] s'
      else if one_of ["?"; "#"] c then Some (end_segment pth buf false, s)
      else if safe c then path_state pth (buf ++ [c]) s'
      else None
  end.

(** Fragment state, entered on [#]. *)
Definition fragment_state (s : list ascii) : option (option (list ascii)) :=
  match s with
  | [] => Some None
  | "#" :: f => if forallb fragment_ok f then Some (Some f) else None
  | _ => None
  end.

(** Query state, entered on [?], then the fragment state. *)
Definition query_state (s : list ascii)
  : option (list ascii * option (list ascii)) :=
  let (q, rest) := span (fun c => negb (is_char "#" c)) s in
  if forallb query_ok q then
    match fragment_state rest with
    | Some f => Some (q, f)
    | None => None
    end
  else None.

(** From the path state to the end of the input. *)
Definition path_onward (sch h : list ascii) (p : option N)
    (pth : list (list ascii)) (s : list ascii) : outcome url_record :=
  match path_state pth [] s with
  | None => Unmodelled
  | Some (pth', rest) =>
      match rest with
      | "?" :: r =>
          match query_state r with
          | Some (q, f) => Parsed (mkRecord sch h p pth' (Some q) f)
          | None => Unmodelled
          end
      | _ =>
          match fragment_state rest with
          | Some f => Parsed (mkRecord sch h p pth' None f)
          | None => Unmodelled
          end
      end
  end.

(** From the authority state to the end of the input; the path start
    state consumes one slash. *)
Definition authority_onward (sch s : list ascii) : outcome url_record :=
  bind (parse_authority sch s) (fun '(h, p, rest) =>
    path_onward sch h p []
      match rest with
      | "/" :: r => r
      | _ => rest
      end).

Definition strip_slashes : list ascii -> list ascii := drop_while is_slash.

(** Relative state and relative slash state, for a special base. *)
Definition relative_state (b : url_record) (s : list ascii) : outcome url_record :=
  match s with
  | [] => Parsed (mkRecord (scheme b) (host b) (port b) (path b) (query b) None)
  | "/" :: r =>
      match r with
      | "/" :: _ | "\" :: _ => authority_onward (scheme b) (strip_slashes r)
      | _ => path_onward (scheme b) (host b) (port b) [] r
      end
  | "\" :: _ => Unmodelled
  | "?" :: r =>
      match query_state r with
      | Some (q, f) =>
          Parsed (mkRecord (scheme b) (host b) (port b) (path b) (Some q) f)
      | None => Unmodelled
      end
  | "#" :: _ =>
      match fragment_state s with
      | Some f =>
          Parsed (mkRecord (scheme b) (host b) (port b) (path b) (query b) f)
      | None => Unmodelled
      end
  | _ => path_onward (scheme b) (host b) (port b) (removelast (path b)) s
  end.

(** *** The basic URL parser *)

Definition basic_parse (input : list ascii) (base : option url_record)
  : outcome url_record :=
  let s := preprocess input in
  match split_scheme s with
  | Some (sch, rest) =>
      match default_port sch with
      | Some _ =>
          match base with
          | Some b =>
              if list_eqb (scheme b) sch then
                match rest with
                | "/" :: "/" :: r => authority_onward sch (strip_slashes r)
                | _ => relative_state b rest
                end
              else authority_onward sch (strip_slashes rest)
          | None => authority_onward sch (strip_slashes rest)
          end
      | None => Unmodelled
      end
  | None =>
      match base with
      | None => Failure
      | Some b => relative_state b s
      end
  end.

(** [new URL(input, base)]: the base is parsed first, on its own. *)
Definition URL_parse (input : string) (base : option string) : outcome url_record :=
  match base with
  | None => basic_parse (str input) None
  | Some b =>
      bind (basic_parse (str b) None) (fun parsedBase =>
        basic_parse (str input) (Some parsedBase))
  end.

(** *** The URL serializer and the getters *)

Definition decimal (n : N) : list ascii :=
  str (DecimalString.NilZero.string_of_uint (N.to_uint n)).

Definition serialize (u : url_record) : list ascii :=
  (scheme u ++ str "://" ++ host u
   ++ match port u with Some n => ":" :: decimal n | None => [] end
   ++ concat (map (fun seg => "/" :: seg) (path u))
   ++ match query u with Some q => "?" :: q | None => [] end
   ++ match fragment u with Some f => "#" :: f | None => [] end)%list.

Definition to_object (u : url_record) : Model.URLObject :=
  Model.mkURL (string_of_list_ascii (scheme u ++ [":"])%list)
              (string_of_list_ascii (serialize u)).

(** The constructor as the code sees it; an input outside the fragment
    is turned away like a failure, so only the three-valued
    [URL_parse] tells the two apart. *)
Definition URL : Model.URLConstructor :=
  fun input base =>
    match URL_parse input base with
    | Parsed u => Some (to_object u)
    | _ => None
    end.

End WHATWG.


(* ===================================================================== *)
(** ** The component ([app.component.ts]) *)
(* ===================================================================== *)

Module AppComponent.
Import Model.

Inductive SortByType := by_popularity | by_date | by_title.

(** The signals of the component. *)
Record State := mkState {
  url : string;
  videoGroups : list VideoGroup;
  isLoading : bool;
  error : option string;
  hasSearched : bool;
  isModalOpen : bool;
  selectedVideoGroup : option VideoGroup;
  copiedUrl : string;
  urlHistory : list string;
  selectedCategory : string;
  sortBy : SortByType
}.

(** The initial values of the signals. *)
Definition initial : State :=
  mkState "" [] false None false false None "" [] "all" by_popularity.

(** [signal.set(v)], one definition per signal. *)
Definition set_url v s :=
  mkState v (videoGroups s) (isLoading s) (error s) (hasSearched s) (isModalOpen s)
          (selectedVideoGroup s) (copiedUrl s) (urlHistory s) (selectedCategory s) (sortBy s).
Definition set_videoGroups v s :=
  mkState (url s) v (isLoading s) (error s) (hasSearched s) (isModalOpen s)
          (selectedVideoGroup s) (copiedUrl s) (urlHistory s) (selectedCategory s) (sortBy s).
Definition set_isLoading v s :=
  mkState (url s) (videoGroups s) v (error s) (hasSearched s) (isModalOpen s)
          (selectedVideoGroup s) (copiedUrl s) (urlHistory s) (selectedCategory s) (sortBy s).
Definition set_error v s :=
  mkState (url s) (videoGroups s) (isLoading s) v (hasSearched s) (isModalOpen s)
          (selectedVideoGroup s) (copiedUrl s) (urlHistory s) (selectedCategory s) (sortBy s).
Definition set_hasSearched v s :=
  mkState (url s) (videoGroups s) (isLoading s) (error s) v (isModalOpen s)
          (selectedVideoGroup s) (copiedUrl s) (urlHistory s) (selectedCategory s) (sortBy s).
Definition set_isModalOpen v s :=
  mkState (url s) (videoGroups s) (isLoading s) (error s) (hasSearched s) v
          (selectedVideoGroup s) (copiedUrl s) (urlHistory s) (selectedCategory s) (sortBy s).
Definition set_selectedVideoGroup v s :=
  mkState (url s) (videoGroups s) (isLoading s) (error s) (hasSearched s) (isModalOpen s)
          v (copiedUrl s) (urlHistory s) (selectedCategory s) (sortBy s).
Definition set_copiedUrl v s :=
  mkState (url s) (videoGroups s) (isLoading s) (error s) (hasSearched s) (isModalOpen s)
          (selectedVideoGroup s) v (urlHistory s) (selectedCategory s) (sortBy s).
Definition set_urlHistory v s :=
  mkState (url s) (videoGroups s) (isLoading s) (error s) (hasSearched s) (isModalOpen s)
          (selectedVideoGroup s) (copiedUrl s) v (selectedCategory s) (sortBy s).
Definition set_selectedCategory v s :=
  mkState (url s) (videoGroups s) (isLoading s) (error s) (hasSearched s) (isModalOpen s)
          (selectedVideoGroup s) (copiedUrl s) (urlHistory s) v (sortBy s).
Definition set_sortBy v s :=
  mkState (url s) (videoGroups s) (isLoading s) (error s) (hasSearched s) (isModalOpen s)
          (selectedVideoGroup s) (copiedUrl s) (urlHistory s) (selectedCategory s) v.

(** [localStorage], as far as the component uses it: the array stored
    under ['video-finder-history'] (kept as the list its JSON text
    denotes), and whether the storage can be used at all; when it cannot,
    every access throws. *)
Record Storage := mkStorage {
  item : option (list string);
  available : bool
}.

(** [localStorage.setItem] and [removeItem] inside their [try]/[catch]:
    an exception is logged and the storage stays as it was. *)
Definition setItem (v : list string) (ls : Storage) : Storage :=
  if available ls then mkStorage (Some v) true else ls.
Definition removeItem (ls : Storage) : Storage :=
  if available ls then mkStorage None true else ls.

(** *** Derived state: the category list *)

(** [new Set(iterable)] keeps its elements in insertion order, and adding
    an element that is present changes nothing. *)
Definition Set_add (x : string) (set : list string) : list string :=
  if existsb (String.eqb x) set then set else set ++ [x].
Definition new_Set (values : list string) : list string :=
  fold_left (fun set x => Set_add x set) values [].

(** [videoGroups().map(v => v.category).filter(c => !!c)]: the categories
    that are present and not the empty string, one per group that has
    one. *)
Definition categories (groups : list VideoGroup) : list string :=
  flat_map (fun v => match category v with
                     | Some c => if truthy c then [c] else []
                     | None => []
                     end) groups.

Definition allCategories (s : State) : list string :=
  "all" :: new_Set (categories (videoGroups s)).

(** *** Derived state: the filtered and sorted view *)

(** A JavaScript number as a comparator returns it. *)
Inductive number := Num (q : Q) | NaN.

Definition minus (x y : number) : number :=
  match x, y with
  | Num a, Num b => Num (a - b)
  | _, _ => NaN
  end.

(** [Array.prototype.sort(comparefn)]: the sort is stable, and a [NaN]
    from the comparator counts as [+0].  For a comparator that is a
    consistent ordering the result is the one stable ordering, which this
    insertion sort computes; for an inconsistent comparator the
    language leaves the order to the implementation. *)
Section Sort.
Context {A : Type}.
Variable comparefn : A -> A -> number.

Definition SortCompare (x y : A) : Q :=
  match comparefn x y with
  | Num v => v
  | NaN => 0
  end.

Fixpoint insert (x : A) (sorted : list A) : list A :=
  match sorted with
  | [] => [x]
  | y :: rest =>
      if Qle_bool (SortCompare x y) 0 then x :: sorted
      else y :: insert x rest
  end.

Definition Array_sort (l : list A) : list A := fold_right insert [] l.
End Sort.

(** [g.popularity || 0] *)
Definition popularity_or_0 (g : VideoGroup) : Q :=
  match popularity g with
  | Some p => p
  | None => 0
  end.

(** [v.category === category] *)
Definition category_is (category : string) (v : VideoGroup) : bool :=
  match Model.category v with
  | Some c => String.eqb c category
  | None => false
  end.

Section Presentation.
(** [new Date(s).getTime()] for a string [s]; [NaN] for an invalid
    date. *)
Variable Date_getTime : string -> number.
(** [a.localeCompare(b)] *)
Variable localeCompare : string -> string -> Q.

(** [new Date(g.uploadDate || 0).getTime()] *)
Definition upload_time (g : VideoGroup) : number :=
  match uploadDate g with
  | Some d => if truthy d then Date_getTime d else Num 0
  | None => Num 0
  end.

(** The comparator of [filteredVideoGroups]. *)
Definition comparefn (sort : SortByType) (a b : VideoGroup) : number :=
  match sort with
  | by_date => minus (upload_time b) (upload_time a)
  | by_popularity => Num (popularity_or_0 b - popularity_or_0 a)
  | by_title => Num (localeCompare (title a) (title b))
  end.

Definition filteredVideoGroups (s : State) : list VideoGroup :=
  let groups := videoGroups s in
  let category := selectedCategory s in
  let sort := sortBy s in
  let result := groups in
  let result :=
    if negb (String.eqb category "all")
    then List.filter (category_is category) result
    else result in
  Array_sort (comparefn sort) result.
End Presentation.

(** *** History *)

(** The callback of [urlHistory.update] without its side effect. *)
Definition limitedHistory (url : string) (history : list string) : list string :=
  let newHistory := url :: List.filter (fun h => negb (String.eqb h url)) history in
  firstn 10 newHistory.

Definition updateHistory (url : string) (w : State * Storage) : State * Storage :=
  let (s, ls) := w in
  let limited := limitedHistory url (urlHistory s) in
  (set_urlHistory limited s, setItem limited ls).

Definition clearHistory (w : State * Storage) : State * Storage :=
  let (s, ls) := w in (set_urlHistory [] s, removeItem ls).

(** [loadHistory], called by [ngOnInit]. *)
Definition loadHistory (w : State * Storage) : State * Storage :=
  let (s, ls) := w in
  if available ls then
    match item ls with
    | Some history => (set_urlHistory history s, ls)
    | None => w
    end
  else w.

(** *** The search *)

Definition validation_message : string :=
  "Please enter a valid URL (e.g., https://example.com)".
Definition unknown_error : string := "An unknown error occurred.".

(** What evaluating [this.geminiService.findVideosInUrl(urlToSearch)]
    can do: return a promise, or throw synchronously. *)
Inductive CallOutcome :=
| Returns (p : Promise (list VideoGroup))
| Throws (e : Thrown).

Section Search.
(** [new URL(input)] *)
Variable URL : URLConstructor.

Definition isValidUrl (urlString : string) : bool :=
  match URL urlString None with
  | Some newUrl =>
      String.eqb (protocol newUrl) "http:" || String.eqb (protocol newUrl) "https:"
  | None => false
  end.

(** The five [set] calls before the [try]. *)
Definition begin_search (s : State) : State :=
  set_selectedCategory "all"
    (set_hasSearched true
      (set_videoGroups []
        (set_error None
          (set_isLoading true s)))).

(** [findVideos] up to the [await]: the new state, and the URL handed
    to the service when the input is valid. *)
Definition submit (s : State) : State * option string :=
  let urlToSearch := url s in
  if negb (isValidUrl urlToSearch)
  then (set_error (Some validation_message) s, None)
  else (begin_search s, Some urlToSearch).

(** [findVideos] from the [await] on: the rest of the [try], the
    [catch] and the [finally]. *)
Definition settle (urlToSearch : string) (o : CallOutcome) (w : State * Storage)
  : State * Storage :=
  let (s, ls) := w in
  let (s', ls') :=
    match o with
    | Returns (Resolved foundGroups) =>
        updateHistory urlToSearch (set_videoGroups foundGroups s, ls)
    | Returns (Rejected e) | Throws e =>
        (set_error (Some (or_else (message e) unknown_error)) s, ls)
    end in
  (set_isLoading false s', ls').

(** *** Events *)

(** What can run on the component: the handlers the template calls,
    the callbacks of the clipboard promise and of its timer, and the
    continuation of a search whose call has settled. *)
Inductive Event :=
| NgOnInit
| FindVideos
| LoadFromHistory (u : string)
| OnUrlChange (newUrl : string)
| SetCategoryFilter (category : string)
| SetSortBy (criteria : SortByType)
| OpenDownloadModal (group : VideoGroup)
| CloseModal
| ClipboardWritten (u : string)
| CopiedTimeout (u : string)
| ClearHistory
| Settled (urlToSearch : string) (o : CallOutcome).

Definition onUrlChange (newUrl : string) (s : State) : State :=
  let s := set_url newUrl s in
  match error s with
  | Some m => if truthy m then set_error None s else s
  | None => s
  end.

Definition closeModal (s : State) : State :=
  set_copiedUrl "" (set_selectedVideoGroup None (set_isModalOpen false s)).

Definition handle (e : Event) (w : State * Storage) : State * Storage :=
  let (s, ls) := w in
  match e with
  | NgOnInit => loadHistory w
  | FindVideos => (fst (submit s), ls)
  | LoadFromHistory u => (fst (submit (set_url u s)), ls)
  | OnUrlChange newUrl => (onUrlChange newUrl s, ls)
  | SetCategoryFilter category => (set_selectedCategory category s, ls)
  | SetSortBy criteria => (set_sortBy criteria s, ls)
  | OpenDownloadModal group =>
      (set_isModalOpen true (set_selectedVideoGroup (Some group) s), ls)
  | CloseModal => (closeModal s, ls)
  | ClipboardWritten u => (set_copiedUrl u s, ls)
  | CopiedTimeout u =>
      (if String.eqb (copiedUrl s) u then set_copiedUrl "" s else s, ls)
  | ClearHistory => clearHistory w
  | Settled urlToSearch o => settle urlToSearch o w
  end.

Definition run (es : list Event) (w : State * Storage) : State * Storage :=
  fold_left (fun w e => handle e w) es w.

(** No search settles among these events. *)
Definition is_settled (e : Event) : bool :=
  match e with
  | Settled _ _ => true
  | _ => false
  end.

(** *** One search run to completion *)

Record World (ServiceState : Type) := mkWorld {
  ui : State;
  storage : Storage;
  service : ServiceState
}.
Arguments mkWorld {ServiceState}.
Arguments ui {ServiceState}.
Arguments storage {ServiceState}.
Arguments service {ServiceState}.

(** [findVideos] with the injected service, when nothing else runs
    between the call and its settlement. *)
Definition findVideos {ServiceState : Type}
    (findVideosInUrl : string -> ServiceState -> CallOutcome * ServiceState)
    (w : World ServiceState) : World ServiceState :=
  match submit (ui w) with
  | (s, None) => mkWorld s (storage w) (service w)
  | (s, Some urlToSearch) =>
      let (o, svc) := findVideosInUrl urlToSearch (service w) in
      let (s', ls) := settle urlToSearch o (s, storage w) in
      mkWorld s' ls svc
  end.
End Search.

Arguments mkWorld {ServiceState}.
Arguments ui {ServiceState}.
Arguments storage {ServiceState}.
Arguments service {ServiceState}.

(** *** The download file name *)

(** A string is read here as its code units, which [ascii] bounds by 255.
    [/[^a-z0-9]/gi] matches every code unit that is not an ASCII letter or
    digit: without the [u] flag a code unit above 127 never folds to an
    ASCII letter. *)
Definition alphanumeric (c : ascii) : bool := WHATWG.is_alnum c.

(** [s.replace(/[^a-z0-9]/gi, '_')] *)
Fixpoint replace_non_alphanumeric (s : string) : string :=
  match s with
  | EmptyString => EmptyString
  | String c rest =>
      String (if alphanumeric c then c else "_"%char) (replace_non_alphanumeric rest)
  end.

(** [toLowerCase] where the code applies it: to a string of ASCII letters,
    digits and underscores. *)
Fixpoint toLowerCase (s : string) : string :=
  match s with
  | EmptyString => EmptyString
  | String c rest => String (WHATWG.lower c) (toLowerCase rest)
  end.

(** [s.replace(/[^a-z0-9]/gi, '_').toLowerCase()] *)
Definition clean (s : string) : string := toLowerCase (replace_non_alphanumeric s).

Definition getDownloadFilename (title : string) (variant : VideoVariant) : string :=
  let cleanTitle := clean title in
  let resolution := or_else (option_map clean (Model.resolution variant)) "video" in
  cleanTitle +:+ "_" +:+ resolution +:+ "." +:+ format variant.

(** *** Searches in flight *)

Section Tracking.
Variable URL : URLConstructor.

Fixpoint remove_first (u : string) (pending : list string) : list string :=
  match pending with
  | [] => []
  | p :: rest => if String.eqb p u then rest else p :: remove_first u rest
  end.

Definition issued (call : option string) : list string :=
  match call with
  | Some u => [u]
  | None => []
  end.

(** The events handled one after the other, together with the URLs of the
    calls that were made and have not settled: a submission that passes
    validation adds its URL, and the continuation of a search runs only for
    a URL that is pending, which it takes away.  [None] when an event is the
    continuation of a search that was never started. *)
Fixpoint track (es : list Event) (w : State * Storage) (pending : list string)
  : option (State * Storage * list string) :=
  match es with
  | [] => Some (w, pending)
  | e :: rest =>
      match e with
      | FindVideos =>
          track rest (handle URL e w) (pending ++ issued (snd (submit URL (fst w))))
      | LoadFromHistory u =>
          track rest (handle URL e w)
                (pending ++ issued (snd (submit URL (set_url u (fst w)))))
      | Settled u _ =>
          if existsb (String.eqb u) pending
          then track rest (handle URL e w) (remove_first u pending)
          else None
      | _ => track rest (handle URL e w) pending
      end
  end.
End Tracking.

End AppComponent.

(* ===================================================================== *)
(** ** The component with the service injected *)
(* ===================================================================== *)

Module Application.
Import Model GeminiService.

Section Wiring.
Variable URL : URLConstructor.
Variable trim : string -> string.
Variable JSON_parse : string -> option (list VideoGroup).
Variable genAI : GenAI.

(** [this.geminiService.findVideosInUrl(urlToSearch)]: an [async] method
    returns a promise, whatever happens in its body. *)
Definition injected (urlToSearch : string) (st : ServiceState)
  : AppComponent.CallOutcome * ServiceState :=
  let (p, st') := findVideosInUrl URL trim JSON_parse genAI urlToSearch st in
  (AppComponent.Returns p, st').

(** [findVideos] of the component, run to completion. *)
Definition findVideos (w : AppComponent.World ServiceState)
  : AppComponent.World ServiceState :=
  AppComponent.findVideos URL injected w.

(** [loadFromHistory(url)], run to completion. *)
Definition loadFromHistory (u : string) (w : AppComponent.World ServiceState)
  : AppComponent.World ServiceState :=
  findVideos (AppComponent.mkWorld (AppComponent.set_url u (AppComponent.ui w))
                (AppComponent.storage w) (AppComponent.service w)).

(** Calls of the service one after the other, each run to completion. *)
Definition resolve_all (urls : list string) (st : ServiceState) : ServiceState :=
  fold_left (fun st u => snd (findVideosInUrl URL trim JSON_parse genAI u st)) urls st.
End Wiring.

End Application.

(* ===================================================================== *)
(** ** The service between its awaits *)
(* ===================================================================== *)

(** [findVideosInUrl] suspends once, at [await generateContent]: the cache
    is looked up before that point and written after it, and other calls
    may run in between. *)

Module AsyncService.
Import Model GeminiService.

(** The cache and the counter, and the calls whose [generateContent] has
    been invoked and has not been answered: the URL of each and the index
    of its invocation. *)
Record State := mkAsync {
  settled : ServiceState;
  in_flight : list (string * nat)
}.

Fixpoint drop_nth {A : Type} (i : nat) (l : list A) : list A :=
  match l, i with
  | [], _ => []
  | _ :: rest, O => rest
  | x :: rest, S j => x :: drop_nth j rest
  end.

Section Async.
Variable URL : URLConstructor.
Variable trim : string -> string.
Variable JSON_parse : string -> option (list VideoGroup).
Variable genAI : GenAI.

(** [findVideosInUrl] up to the [await]: a hit returns the cached value;
    a miss invokes the model and suspends, so there is no result yet. *)
Definition begin_call (url : string) (st : State)
  : option (Promise (list VideoGroup)) * State :=
  match cache (settled st) !! url with
  | Some cached => (Some (Resolved cached), st)
  | None =>
      (None,
       mkAsync (mkService (cache (settled st)) (S (calls (settled st))))
               (in_flight st ++ [(url, calls (settled st))]))
  end.

(** [findVideosInUrl] from the [await] on, for the [i]-th call in flight:
    the answer is processed and stored, or the call is rejected.  Nothing
    happens when there is no such call. *)
Definition settle_call (i : nat) (st : State)
  : option (Promise (list VideoGroup)) * State :=
  match List.nth_error (in_flight st) i with
  | None => (None, st)
  | Some (url, n) =>
      match analyze URL trim JSON_parse genAI n url with
      | Some processedGroups =>
          (Some (Resolved processedGroups),
           mkAsync (mkService (<[url := processedGroups]> (cache (settled st)))
                              (calls (settled st)))
                   (drop_nth i (in_flight st)))
      | None =>
          (Some (Rejected (Error failure_message)),
           mkAsync (settled st) (drop_nth i (in_flight st)))
      end
  end.

(** What runs on the service: a call is made, or a call in flight is
    answered. *)
Inductive Step :=
| Call (url : string)
| Answer (i : nat).

Definition step (e : Step) (st : State) : State :=
  match e with
  | Call url => snd (begin_call url st)
  | Answer i => snd (settle_call i st)
  end.

Definition steps (es : list Step) (st : State) : State :=
  fold_left (fun st e => step e st) es st.
End Async.

(** No call for [url] is in flight. *)
Definition quiet (url : string) (st : State) : Prop :=
  forall n, ~ In (url, n) (in_flight st).

End AsyncService.

(* ===================================================================== *)
(** ** Concrete collaborators and inputs *)
(* ===================================================================== *)

Module Examples.
Import Model GeminiService.

(** [String.prototype.trim] on ASCII white space. *)
Definition white (c : ascii) : bool :=
  WHATWG.between 9 13 c || WHATWG.is_char " " c.
Definition ascii_trim (s : string) : string :=
  string_of_list_ascii
    (rev (WHATWG.drop_while white (rev (WHATWG.drop_while white (list_ascii_of_string s))))).

(** The text of an answer of the model, with white space around the JSON
    text [payload]; and a [JSON.parse] for which [payload] denotes [raw]
    and nothing else parses. *)
Definition payload : string := "[ ... ]".
Definition reply : string := "  [ ... ]
".
Definition parses_to (raw : list VideoGroup) : string -> option (list VideoGroup) :=
  fun s => if String.eqb s payload then Some raw else None.

(** An external model that answers every prompt with the text [t], one
    whose every call is rejected, and one that is rejected once and
    answers [t] afterwards. *)
Definition answers (t : string) : GenAI := fun _ _ => Some (mkResponse (Some t)).
Definition unavailable : GenAI := fun _ _ => None.
Definition recovers (t : string) : GenAI :=
  fun n _ => match n with O => None | S _ => Some (mkResponse (Some t)) end.

Definition page : string := "https://site.test/page".

Definition clip (thumbnail : option string) : VideoGroup :=
  mkGroup "Clip" thumbnail (Some "Tutorial") (Some "2023-10-27") (Some (90 # 1)%Q)
          [mkVariant "/media/clip.mp4" "mp4" (Some "1080p") None None;
           mkVariant "https://" "m3u8" (Some "720p") None (Some true)].

(** What the service makes of [clip] on [page], given its thumbnail. *)
Definition processed_clip (thumbnail : option string) : VideoGroup :=
  mkGroup "Clip" thumbnail (Some "Tutorial") (Some "2023-10-27") (Some (90 # 1)%Q)
          [mkVariant "https://site.test/media/clip.mp4" "mp4" (Some "1080p") None None;
           mkVariant "https://" "m3u8" (Some "720p") None (Some true)].

(** The service with the modelled URL parser, answering with [raw]. *)
Definition resolve (raw : list VideoGroup) (genAI : GenAI)
  : string -> ServiceState -> Promise (list VideoGroup) * ServiceState :=
  findVideosInUrl WHATWG.URL ascii_trim (parses_to raw) genAI.

(** Collaborators of the presentation: a runtime in which no date string
    parses, and a comparison of titles by code unit, without locale. *)
Definition no_dates : string -> AppComponent.number := fun _ => AppComponent.NaN.
Definition ordinal_compare (a b : string) : Q :=
  match String.compare a b with
  | Lt => (-1 # 1)%Q
  | Eq => 0%Q
  | Gt => (1 # 1)%Q
  end.

Definition video (title : string) (category : option string) (popularity : option Q)
  : VideoGroup :=
  mkGroup title None category None popularity
          [mkVariant "https://cdn.test/v.mp4" "mp4" (Some "720p") None None].

Definition hit : VideoGroup := video "Hit" (Some "Music Video") (Some (90 # 1)%Q).
Definition vlog : VideoGroup := video "Vlog" (Some "Vlog") (Some (40 # 1)%Q).
Definition unrated : VideoGroup := video "Unrated" None None.
Definition lesson : VideoGroup := video "Lesson" (Some "Tutorial") (Some (40 # 1)%Q).
Definition unlabelled : VideoGroup := video "Unlabelled" (Some "") (Some 0%Q).

(** A component showing [groups] after a search. *)
Definition showing (groups : list VideoGroup) (category : string)
    (sort : AppComponent.SortByType) : AppComponent.State :=
  AppComponent.mkState "" groups false None true false None "" [] category sort.

Definition shown (s : AppComponent.State) : list VideoGroup :=
  AppComponent.filteredVideoGroups no_dates ordinal_compare s.

(** The component with [input] typed in the search box, before any
    search. *)
Definition typed (input : string) : AppComponent.State :=
  AppComponent.set_url input AppComponent.initial.

Definition empty_storage : AppComponent.Storage := AppComponent.mkStorage None true.

(** The service as the component calls it: an [async] function returns a
    promise and never throws synchronously. *)
Definition service (raw : list VideoGroup) (genAI : GenAI) (u : string) (st : ServiceState)
  : AppComponent.CallOutcome * ServiceState :=
  let (p, st') := resolve raw genAI u st in (AppComponent.Returns p, st').

(** Typing [u] and submitting it, the model answering every prompt with a
    text that denotes [raw]. *)
Definition search (raw : list VideoGroup) (u : string)
    (w : AppComponent.World ServiceState) : AppComponent.World ServiceState :=
  AppComponent.findVideos WHATWG.URL (service raw (answers reply))
    (AppComponent.mkWorld (AppComponent.set_url u (AppComponent.ui w))
       (AppComponent.storage w) (AppComponent.service w)).

Definition fresh : AppComponent.World ServiceState :=
  AppComponent.mkWorld AppComponent.initial empty_storage initial.

(** A runtime whose [Date] parses two day strings, to their time values in
    milliseconds. *)
Definition calendar (d : string) : AppComponent.number :=
  if String.eqb d "2023-10-27" then AppComponent.Num (1698364800000 # 1)%Q
  else if String.eqb d "2024-01-05" then AppComponent.Num (1704412800000 # 1)%Q
  else AppComponent.NaN.

Definition uploaded (title : string) (uploadDate : option string) : VideoGroup :=
  mkGroup title None None uploadDate None
          [mkVariant "https://cdn.test/v.mp4" "mp4" (Some "720p") None None].

(** A model whose first answer differs from its later ones, and a
    [JSON.parse] that reads the two texts. *)
Definition first_then (t1 t2 : string) : GenAI :=
  fun n _ => Some (mkResponse (Some match n with O => t1 | S _ => t2 end)).
Definition parses_two (t1 : string) (raw1 : list VideoGroup)
    (t2 : string) (raw2 : list VideoGroup) : string -> option (list VideoGroup) :=
  fun s => if String.eqb s t1 then Some raw1
           else if String.eqb s t2 then Some raw2 else None.

End Examples.

(* ===================================================================== *)
(** ** Predicates the statements about the service use *)
(* ===================================================================== *)

Module ServiceSpec.
Import Model GeminiService.

Section Spec.
Variable URL : URLConstructor.
Variable trim : string -> string.
Variable JSON_parse : string -> option (list VideoGroup).

(** What makes the analysis throw. *)
Inductive throws (genAI : GenAI) (n : nat) (url : string) : Prop :=
| call_rejected :
    genAI n (prompt url) = None -> throws genAI n url
| text_undefined r :
    genAI n (prompt url) = Some r -> text r = None -> throws genAI n url
| parse_failure r t :
    genAI n (prompt url) = Some r -> text r = Some t ->
    JSON_parse (trim t) = None -> throws genAI n url
| postprocessing_throws r t raw :
    genAI n (prompt url) = Some r -> text r = Some t ->
    JSON_parse (trim t) = Some raw ->
    Exists (fun g => processThumbnail URL url (thumbnailUrl g) = None) raw ->
    throws genAI n url.

(** What a processed group owes to the group the model returned. *)
Definition thumbnail_resolved (url : string) (g g' : VideoGroup) : Prop :=
  match thumbnailUrl g with
  | Some t =>
      if truthy t
      then exists u, URL t (Some url) = Some u /\ thumbnailUrl g' = Some (href u)
      else thumbnailUrl g' = None
  | None => thumbnailUrl g' = None
  end.

Definition normalized (url : string) (g g' : VideoGroup) : Prop :=
  title g' = title g /\ category g' = category g
  /\ uploadDate g' = uploadDate g /\ popularity g' = popularity g
  /\ variants g' = map (processVariant URL url) (variants g)
  /\ thumbnail_resolved url g g'.

(** Every cached value is the normal form of some answer for its key. *)
Definition cache_wf (c : gmap string (list VideoGroup)) : Prop :=
  forall k v, c !! k = Some v ->
    exists raw, Forall2 (normalized k) raw v.

End Spec.

End ServiceSpec.

(* ===================================================================== *)
(** ** Notions the statements about the component use *)
(* ===================================================================== *)

Module ComponentSpec.
Import Model AppComponent.

(** The distinct values of a list in first-seen order: a value stays where
    it first occurs and its later occurrences are dropped. *)
Fixpoint first_seen (l : list string) : list string :=
  match l with
  | [] => []
  | x :: rest => x :: List.filter (fun y => negb (String.eqb y x)) (first_seen rest)
  end.

(** [a] may stand before [b] when sorting by popularity, higher first, a
    missing popularity counting as 0. *)
Definition popularity_descending (a b : VideoGroup) : Prop :=
  (popularity_or_0 b <= popularity_or_0 a)%Q.

(** The groups whose popularity (missing: 0) is the number [k]. *)
Definition with_popularity (k : Q) (l : list VideoGroup) : list VideoGroup :=
  List.filter (fun g => Qeq_bool (popularity_or_0 g) k) l.

(** What holds of the signals while a search is in flight. *)
Definition in_flight (s : State) : Prop :=
  isLoading s = true /\ videoGroups s = [] /\ hasSearched s = true.

(** None of the events is the continuation of a search. *)
Definition none_settles (es : list Event) : bool :=
  forallb (fun e => negb (is_settled e)) es.

End ComponentSpec.

(* ===================================================================== *)
(** ** Notions the further statements use *)
(* ===================================================================== *)

Module CoverageSpec.
Import Model AppComponent.

(** The characters of a cleaned string. *)
Definition file_char (c : ascii) : bool :=
  WHATWG.is_lower c || WHATWG.is_digit c || WHATWG.is_char "_" c.

Fixpoint all_chars (p : ascii -> bool) (s : string) : bool :=
  match s with
  | EmptyString => true
  | String c rest => p c && all_chars p rest
  end.

(** What cleaning makes of one code unit. *)
Definition clean_char (c : ascii) : ascii :=
  WHATWG.lower (if alphanumeric c then c else "_"%char).

(** The resolution part of the name. *)
Definition resolution_part (variant : VideoVariant) : string :=
  or_else (option_map clean (resolution variant)) "video".

(** A history as [updateHistory] leaves it. *)
Definition bounded (history : list string) : Prop :=
  List.NoDup history /\ length history <= 10.

(** The history in memory and the persisted one are both bounded. *)
Definition history_shape (w : State * Storage) : Prop :=
  bounded (urlHistory (fst w))
  /\ forall h, item (snd w) = Some h -> bounded h.

(** What a usable storage holds is the history in memory. *)
Definition mirrored (w : State * Storage) : Prop :=
  available (snd w) = true ->
  item (snd w) = Some (urlHistory (fst w))
  \/ (item (snd w) = None /\ urlHistory (fst w) = []).


(** Events that set or clear the copied indicator. *)
Definition touches_copied (e : Event) : bool :=
  match e with
  | ClipboardWritten _ | CopiedTimeout _ | CloseModal => true
  | _ => false
  end.

Definition leaves_copied (es : list Event) : bool :=
  forallb (fun e => negb (touches_copied e)) es.

(** The URLs that pass the validation of the search box. *)
Definition valid (URL : URLConstructor) (u : string) : Prop :=
  isValidUrl URL u = true.

(** The history in memory, the persisted one and the pending calls hold
    valid URLs only. *)
Definition all_valid (URL : URLConstructor) (w : State * Storage)
    (pending : list string) : Prop :=
  Forall (valid URL) (urlHistory (fst w))
  /\ (forall h, item (snd w) = Some h -> Forall (valid URL) h)
  /\ Forall (valid URL) pending.

(** The time a group sorts by, when its date is usable. *)
Definition time_of (Date_getTime : string -> number) (g : VideoGroup) : Q :=
  match upload_time Date_getTime g with
  | Num t => t
  | NaN => 0
  end.

Definition dated (Date_getTime : string -> number) (g : VideoGroup) : Prop :=
  exists t, upload_time Date_getTime g = Num t.

End CoverageSpec.

(* ===================================================================== *)
(** ** The service: cache and normalisation *)
(* ===================================================================== *)

Module ServiceFacts.
Import Model GeminiService ServiceSpec.

Section Facts.
Variable URL : URLConstructor.
Variable trim : string -> string.
Variable JSON_parse : string -> option (list VideoGroup).

Local Abbreviation resolve := (findVideosInUrl URL trim JSON_parse).
Local Abbreviation analysis := (analyze URL trim JSON_parse).

(** The three outcomes of a call. *)
Lemma resolve_hit genAI url st cached :
  cache st !! url = Some cached ->
  resolve genAI url st = (Resolved cached, st).
Proof. intros H. unfold findVideosInUrl. now rewrite H. Qed.

Lemma resolve_miss_ok genAI url st processed :
  cache st !! url = None ->
  analysis genAI (calls st) url = Some processed ->
  resolve genAI url st =
    (Resolved processed, mkService (<[url := processed]> (cache st)) (S (calls st))).
Proof. intros H1 H2. unfold findVideosInUrl. now rewrite H1, H2. Qed.

Lemma resolve_miss_fail genAI url st :
  cache st !! url = None ->
  analysis genAI (calls st) url = None ->
  resolve genAI url st =
    (Rejected (Error failure_message), mkService (cache st) (S (calls st))).
Proof. intros H1 H2. unfold findVideosInUrl. now rewrite H1, H2. Qed.

(** A call is rejected exactly when the URL is not cached and the
    analysis throws. *)
Lemma resolve_rejected genAI url st e st' :
  resolve genAI url st = (Rejected e, st') <->
  cache st !! url = None /\ analysis genAI (calls st) url = None
  /\ e = Error failure_message /\ st' = mkService (cache st) (S (calls st)).
Proof.
  unfold findVideosInUrl.
  destruct (cache st !! url) as [cached|] eqn:Hc.
  - split; [discriminate | intros [H _]; discriminate].
  - destruct (analysis genAI (calls st) url) as [processed|] eqn:Ha.
    + split; [discriminate | intros (_ & H & _); discriminate].
    + split.
      * intros H. injection H as <- <-. auto.
      * intros (_ & _ & -> & ->). reflexivity.
Qed.

(** A call is resolved exactly from the cache or from a fresh
    analysis that is then stored. *)
Lemma resolve_resolved genAI url st gs st' :
  resolve genAI url st = (Resolved gs, st') ->
  (cache st !! url = Some gs /\ st' = st)
  \/ (cache st !! url = None /\ analysis genAI (calls st) url = Some gs
      /\ st' = mkService (<[url := gs]> (cache st)) (S (calls st))).
Proof.
  unfold findVideosInUrl.
  destruct (cache st !! url) as [cached|] eqn:Hc.
  - intros H. injection H as <- <-. now left.
  - destruct (analysis genAI (calls st) url) as [processed|] eqn:Ha.
    + intros H. injection H as <- <-. right. auto.
    + discriminate.
Qed.

Lemma processGroup_None url g :
  processGroup URL url g = None <-> processThumbnail URL url (thumbnailUrl g) = None.
Proof.
  unfold processGroup.
  destruct (processThumbnail URL url (thumbnailUrl g)); split; congruence.
Qed.

Lemma analysis_None genAI n url :
  analysis genAI n url = None <-> throws URL trim JSON_parse genAI n url.
Proof.
  unfold analyze. split.
  - destruct (genAI n (prompt url)) as [r|] eqn:Hg; [|intros _; now apply call_rejected].
    destruct (text r) as [t|] eqn:Ht; [|intros _; now apply text_undefined with r].
    destruct (JSON_parse (trim t)) as [raw|] eqn:Hp;
      [|intros _; now apply parse_failure with r t].
    intros H. apply mapM_None in H.
    apply postprocessing_throws with r t raw; auto.
    eapply Exists_impl; [exact H|]. intros g. apply processGroup_None.
  - intros [H | r H1 H2 | r t H1 H2 H3 | r t raw H1 H2 H3 H4].
    + now rewrite H.
    + now rewrite H1, H2.
    + now rewrite H1, H2, H3.
    + rewrite H1, H2, H3. apply mapM_None.
      eapply Exists_impl; [exact H4|]. intros g. apply processGroup_None.
Qed.

(** An unchanged collaborator makes the analysis the same at every
    invocation. *)
Lemma analysis_unchanged genAI n m url :
  unchanged genAI -> analysis genAI n url = analysis genAI m url.
Proof. intros H. unfold analyze. now rewrite (H n m). Qed.

(** *** Normalisation *)

Lemma processVariant_resolved url v u :
  URL (Model.url v) (Some url) = Some u ->
  processVariant URL url v =
    mkVariant (href u) (format v) (resolution v) (sizeMb v) (isProtected v).
Proof. intros H. unfold processVariant. now rewrite H. Qed.

(** The [catch] of the variant callback: the variant is kept whole. *)
Lemma processVariant_fallback url v :
  URL (Model.url v) (Some url) = None -> processVariant URL url v = v.
Proof. intros H. unfold processVariant. now rewrite H. Qed.

Lemma processGroup_normalized url g g' :
  processGroup URL url g = Some g' -> normalized URL url g g'.
Proof.
  unfold processGroup, normalized, thumbnail_resolved, processThumbnail.
  destruct (thumbnailUrl g) as [t|].
  - destruct (truthy t).
    + destruct (URL t (Some url)) as [u|] eqn:Hu; [|discriminate].
      intros H. injection H as <-. simpl. repeat split; eauto.
    + intros H. injection H as <-. simpl. repeat split; eauto.
  - intros H. injection H as <-. simpl. repeat split; eauto.
Qed.

Lemma cache_wf_empty : cache_wf URL ∅.
Proof. intros k v H. now rewrite lookup_empty in H. Qed.

Lemma analysis_normalized genAI n url gs :
  analysis genAI n url = Some gs -> exists raw, Forall2 (normalized URL url) raw gs.
Proof.
  unfold analyze.
  destruct (genAI n (prompt url)) as [r|]; [|discriminate].
  destruct (text r) as [t|]; [|discriminate].
  destruct (JSON_parse (trim t)) as [raw|]; [|discriminate].
  intros H. exists raw. apply mapM_Some in H.
  eapply Forall2_impl; [exact H|]. intros g g'. apply processGroup_normalized.
Qed.

Lemma cache_wf_step genAI url st :
  cache_wf URL (cache st) -> cache_wf URL (cache (snd (resolve genAI url st))).
Proof.
  intros Hwf. unfold findVideosInUrl.
  destruct (cache st !! url) as [cached|] eqn:Hc; [exact Hwf|].
  destruct (analysis genAI (calls st) url) as [gs|] eqn:Ha; [|exact Hwf].
  simpl. intros k v. destruct (decide (url = k)) as [<-|Hne].
  - rewrite lookup_insert_eq. intros H. injection H as <-.
    eapply analysis_normalized; eauto.
  - rewrite lookup_insert_ne by assumption. apply Hwf.
Qed.
End Facts.

(** *** The statements about the service *)

(** C1 (the code departs from it).  The specification lets a thumbnail
    that does not resolve keep its original string while the group is
    returned.  The
    variant callback does so, but the thumbnail expression has no
    [try]/[catch]: whenever the model's answer holds a group whose non-empty
    [thumbnailUrl] does not resolve against the submitted URL, the whole
    call is rejected with the generic error and nothing is returned or
    cached.  On [Examples.page] the thumbnail [https://] (a URL with an
    empty host) is such a string; the same string as a variant's [url] is
    kept. *)
Theorem unresolvable_thumbnail_rejects_the_call :
  (forall URL trim JSON_parse genAI url st r t raw g s,
      cache st !! url = None ->
      genAI (calls st) (prompt url) = Some r -> text r = Some t ->
      JSON_parse (trim t) = Some raw ->
      In g raw -> thumbnailUrl g = Some s -> truthy s = true ->
      URL s (Some url) = None ->
      findVideosInUrl URL trim JSON_parse genAI url st =
        (Rejected (Error failure_message), mkService (cache st) (S (calls st))))
  /\ WHATWG.URL_parse "https://" (Some Examples.page) = WHATWG.Failure
  /\ Examples.resolve [Examples.clip (Some "https://")] (Examples.answers Examples.reply)
        Examples.page initial
      = (Rejected (Error failure_message), mkService ∅ 1)
  /\ Examples.resolve [Examples.clip None] (Examples.answers Examples.reply)
        Examples.page initial
      = (Resolved [Examples.processed_clip None],
         mkService {[ Examples.page := [Examples.processed_clip None] ]} 1).
Proof.
  split; [|split; [|split]].
  - intros URL trim JSON_parse genAI url st r t raw g s Hc Hg Ht Hp Hin Hth Htr Hu.
    apply resolve_miss_fail; [exact Hc|].
    apply analysis_None. apply postprocessing_throws with r t raw; auto.
    apply List.Exists_exists. exists g. split; [exact Hin|].
    unfold processThumbnail. now rewrite Hth, Htr, Hu.
  - vm_compute. reflexivity.
  - vm_compute. reflexivity.
  - unfold Examples.resolve. erewrite resolve_miss_ok; [reflexivity|reflexivity|].
    vm_compute. reflexivity.
Qed.

(** C2 as worded fails: with an external model whose every call
    is rejected, two calls for the same URL invoke it twice, not at most
    once (both calls are rejected alike, and nothing is cached). *)
Lemma two_failed_calls_invoke_the_model_twice :
  let r1 := Examples.resolve [] Examples.unavailable Examples.page initial in
  let r2 := Examples.resolve [] Examples.unavailable Examples.page (snd r1) in
  unchanged Examples.unavailable
  /\ fst r2 = fst r1
  /\ calls (snd r2) = 2
  /\ ~ (calls (snd r2) - calls initial <= 1).
Proof.
  cbv zeta. split; [|split; [|split]].
  - intros n m p. reflexivity.
  - reflexivity.
  - reflexivity.
  - vm_compute. lia.
Qed.

(** C2, amended.  With an unchanged external model, two calls for the same
    URL return identical results.  When the first call is resolved, its
    value is in the cache, the second call is answered from it and changes
    nothing (no external call, no re-validation), and the model has been
    invoked at most once over both calls.  When the first call is rejected,
    nothing is cached and the second call invokes the model again: twice
    over both calls. *)
Theorem resolve_twice URL trim JSON_parse genAI url st :
  unchanged genAI ->
  let r1 := findVideosInUrl URL trim JSON_parse genAI url st in
  let r2 := findVideosInUrl URL trim JSON_parse genAI url (snd r1) in
  fst r2 = fst r1
  /\ (forall gs, fst r1 = Resolved gs ->
        cache (snd r1) !! url = Some gs /\ snd r2 = snd r1
        /\ calls (snd r2) <= S (calls st))
  /\ (forall e, fst r1 = Rejected e ->
        cache (snd r2) = cache st /\ calls (snd r2) = S (S (calls st))).
Proof.
  intros Hun. cbv zeta.
  destruct (cache st !! url) as [cached|] eqn:Hc.
  - rewrite (resolve_hit URL trim JSON_parse genAI url st cached Hc). simpl.
    rewrite (resolve_hit URL trim JSON_parse genAI url st cached Hc). simpl.
    split; [reflexivity|]. split.
    + intros gs H. injection H as <-. auto.
    + intros e H. discriminate.
  - destruct (analyze URL trim JSON_parse genAI (calls st) url) as [gs|] eqn:Ha.
    + rewrite (resolve_miss_ok URL trim JSON_parse genAI url st gs Hc Ha). simpl.
      rewrite (resolve_hit URL trim JSON_parse genAI url _ gs)
        by (simpl; apply lookup_insert_eq).
      simpl. split; [reflexivity|]. split.
      * intros gs' H. injection H as <-. rewrite lookup_insert_eq. auto.
      * intros e H. discriminate.
    + rewrite (resolve_miss_fail URL trim JSON_parse genAI url st Hc Ha). simpl.
      rewrite (resolve_miss_fail URL trim JSON_parse genAI url _); simpl;
        [|exact Hc|rewrite <- Ha; now apply analysis_unchanged].
      split; [reflexivity|]. split.
      * intros gs H. discriminate.
      * intros e _. auto.
Qed.

Lemma resolve_twice_witness :
  let r1 := Examples.resolve [Examples.clip (Some "/thumb.jpg")] (Examples.answers Examples.reply)
              Examples.page initial in
  let r2 := Examples.resolve [Examples.clip (Some "/thumb.jpg")] (Examples.answers Examples.reply)
              Examples.page (snd r1) in
  fst r2 = fst r1
  /\ (forall gs, fst r1 = Resolved gs ->
        cache (snd r1) !! Examples.page = Some gs /\ snd r2 = snd r1
        /\ calls (snd r2) <= S (calls initial))
  /\ (forall e, fst r1 = Rejected e ->
        cache (snd r2) = cache initial /\ calls (snd r2) = S (S (calls initial))).
Proof.
  apply (resolve_twice WHATWG.URL Examples.ascii_trim
           (Examples.parses_to [Examples.clip (Some "/thumb.jpg")])
           (Examples.answers Examples.reply) Examples.page initial).
  intros n m p. reflexivity.
Defined.

(** C8.  The groups a resolved call returns are the normal forms, for the
    submitted URL, of the groups the model answered: each thumbnail that
    was present and non-empty is the [href] of that string resolved against
    the submitted URL (and an absent or empty one is absent), the variants
    are processed one by one, and the other fields are kept.  A result
    served from the cache is of the same form, the cache being filled by
    such calls only.  With the modelled URL parser, a group with thumbnail
    [/thumb.jpg] searched on [https://site.test/page] comes back with
    thumbnail [https://site.test/thumb.jpg]. *)
Theorem thumbnail_is_resolved_against_the_page :
  (forall URL trim JSON_parse genAI url st gs st' r t raw,
      cache st !! url = None ->
      genAI (calls st) (prompt url) = Some r -> text r = Some t ->
      JSON_parse (trim t) = Some raw ->
      findVideosInUrl URL trim JSON_parse genAI url st = (Resolved gs, st') ->
      Forall2 (normalized URL url) raw gs)
  /\ (forall URL trim JSON_parse genAI url st gs st',
        cache_wf URL (cache st) ->
        findVideosInUrl URL trim JSON_parse genAI url st = (Resolved gs, st') ->
        cache_wf URL (cache st')
        /\ exists raw, Forall2 (normalized URL url) raw gs)
  /\ WHATWG.URL "/thumb.jpg" (Some "https://site.test/page")
      = Some (mkURL "https:" "https://site.test/thumb.jpg")
  /\ fst (Examples.resolve [Examples.clip (Some "/thumb.jpg")] (Examples.answers Examples.reply)
            "https://site.test/page" initial)
      = Resolved [Examples.processed_clip (Some "https://site.test/thumb.jpg")].
Proof.
  split; [|split; [|split]].
  - intros URL trim JSON_parse genAI url st gs st' r t raw Hc Hg Ht Hp H.
    apply resolve_resolved in H as [[Hc' _] | (_ & Ha & _)]; [congruence|].
    unfold analyze in Ha. rewrite Hg, Ht, Hp in Ha. apply mapM_Some in Ha.
    eapply Forall2_impl; [exact Ha|]. intros g g'. apply processGroup_normalized.
  - intros URL trim JSON_parse genAI url st gs st' Hwf H. split.
    + change st' with (snd (Resolved gs, st')). rewrite <- H. now apply cache_wf_step.
    + apply resolve_resolved in H as [[Hc ->] | (Hc & Ha & ->)].
      * exact (Hwf url gs Hc).
      * eapply analysis_normalized; eauto.
  - vm_compute. reflexivity.
  - vm_compute. reflexivity.
Qed.

Lemma thumbnail_is_resolved_witness :
  cache_wf WHATWG.URL (cache initial)
  /\ cache_wf WHATWG.URL
       (cache (snd (Examples.resolve [Examples.clip (Some "/thumb.jpg")]
                      (Examples.answers Examples.reply) Examples.page initial)))
  /\ exists raw,
       Forall2 (normalized WHATWG.URL Examples.page) raw
         [Examples.processed_clip (Some "https://site.test/thumb.jpg")].
Proof.
  split; [apply cache_wf_empty|].
  apply (proj1 (proj2 thumbnail_is_resolved_against_the_page)
           WHATWG.URL Examples.ascii_trim
           (Examples.parses_to [Examples.clip (Some "/thumb.jpg")])
           (Examples.answers Examples.reply) Examples.page initial
           [Examples.processed_clip (Some "https://site.test/thumb.jpg")]
           (snd (Examples.resolve [Examples.clip (Some "/thumb.jpg")]
                   (Examples.answers Examples.reply) Examples.page initial))).
  - apply cache_wf_empty.
  - vm_compute. reflexivity.
Defined.

(** C10.  A call is rejected exactly when the URL is not cached and the
    analysis throws: the external call is rejected, its text is missing or
    does not parse, or the post-processing throws.  A rejected call has
    invoked the model once and leaves the cache as it was, with no entry
    for the URL; so the next call for the same URL invokes the model again,
    whatever it answers then, and returns what that fresh analysis gives. *)
Theorem failure_is_not_cached URL trim JSON_parse genAI url st :
  (forall e st',
      findVideosInUrl URL trim JSON_parse genAI url st = (Rejected e, st') ->
      throws URL trim JSON_parse genAI (calls st) url
      /\ cache st' = cache st /\ cache st' !! url = None
      /\ calls st' = S (calls st)
      /\ forall genAI',
           let r := findVideosInUrl URL trim JSON_parse genAI' url st' in
           calls (snd r) = S (calls st')
           /\ fst r = match analyze URL trim JSON_parse genAI' (calls st') url with
                      | Some gs => Resolved gs
                      | None => Rejected (Error failure_message)
                      end)
  /\ (cache st !! url = None ->
      throws URL trim JSON_parse genAI (calls st) url ->
      findVideosInUrl URL trim JSON_parse genAI url st
      = (Rejected (Error failure_message), mkService (cache st) (S (calls st)))).
Proof.
  split.
  - intros e st' H. apply resolve_rejected in H as (Hc & Ha & -> & ->). simpl.
    split; [now apply analysis_None|]. repeat split; auto.
    + unfold findVideosInUrl. simpl. rewrite Hc.
      now destruct (analyze URL trim JSON_parse genAI' (S (calls st)) url).
    + unfold findVideosInUrl. simpl. rewrite Hc.
      now destruct (analyze URL trim JSON_parse genAI' (S (calls st)) url).
  - intros Hc Ht. apply resolve_miss_fail; [exact Hc|]. now apply analysis_None.
Qed.

Lemma failure_is_not_cached_witness :
  let r1 := Examples.resolve [] Examples.unavailable Examples.page initial in
  let r2 := Examples.resolve [] (Examples.recovers Examples.reply) Examples.page (snd r1) in
  r1 = (Rejected (Error failure_message), mkService ∅ 1)
  /\ cache (snd r1) !! Examples.page = None
  /\ calls (snd r2) = 2
  /\ fst r2 = Resolved [].
Proof.
  cbv zeta.
  assert (H : Examples.resolve [] Examples.unavailable Examples.page initial
              = (Rejected (Error failure_message), mkService ∅ 1)) by reflexivity.
  split; [exact H|].
  destruct (proj1 (failure_is_not_cached WHATWG.URL Examples.ascii_trim
                     (Examples.parses_to []) Examples.unavailable Examples.page initial)
              (Error failure_message) (mkService ∅ 1) H)
    as (_ & _ & Hnone & _ & Hnext).
  rewrite H. split; [exact Hnone|].
  destruct (Hnext (Examples.recovers Examples.reply)) as [Hcalls Hfst].
  split; [exact Hcalls|]. exact Hfst.
Defined.

End ServiceFacts.

(* ===================================================================== *)
(** ** The component: derived state, history and the search *)
(* ===================================================================== *)

Module ComponentFacts.
Import Model AppComponent ComponentSpec.

(** *** [Array.prototype.sort] *)

Section SortFacts.
Context {A : Type}.
Variable comparefn : A -> A -> number.

Lemma insert_perm x l : Permutation (insert comparefn x l) (x :: l).
Proof.
  induction l as [|y rest IH]; simpl.
  - reflexivity.
  - destruct (Qle_bool (SortCompare comparefn x y) 0).
    + reflexivity.
    + rewrite IH. apply perm_swap.
Qed.

Lemma Array_sort_perm l : Permutation (Array_sort comparefn l) l.
Proof.
  induction l as [|x rest IH]; simpl.
  - reflexivity.
  - rewrite insert_perm. now apply perm_skip.
Qed.

Lemma Array_sort_length l : length (Array_sort comparefn l) = length l.
Proof. apply Permutation_length, Array_sort_perm. Qed.

Lemma Array_sort_In x l : In x (Array_sort comparefn l) <-> In x l.
Proof.
  split; apply Permutation_in; [|symmetry]; apply Array_sort_perm.
Qed.
End SortFacts.

(** *** Sorting by popularity *)

Section Popularity.
Variable Date_getTime : string -> number.
Variable localeCompare : string -> string -> Q.

Local Abbreviation by_pop := (comparefn Date_getTime localeCompare by_popularity).

Lemma by_popularity_le a b :
  Qle_bool (SortCompare by_pop a b) 0 = true <-> popularity_descending a b.
Proof.
  unfold SortCompare, comparefn, popularity_descending. rewrite Qle_bool_iff.
  split; intros H; lra.
Qed.

Lemma by_popularity_gt a b :
  Qle_bool (SortCompare by_pop a b) 0 = false ->
  (popularity_or_0 a < popularity_or_0 b)%Q.
Proof.
  intros H. destruct (Qlt_le_dec (popularity_or_0 a) (popularity_or_0 b)) as [Hlt|Hle];
    [exact Hlt|].
  apply by_popularity_le in Hle. congruence.
Qed.

Lemma popularity_descending_trans a b c :
  popularity_descending a b -> popularity_descending b c -> popularity_descending a c.
Proof. unfold popularity_descending. intros. lra. Qed.

Lemma insert_sorted x l :
  StronglySorted popularity_descending l ->
  StronglySorted popularity_descending (insert by_pop x l).
Proof.
  induction 1 as [|y rest Hs IH Hall]; simpl.
  - repeat constructor.
  - destruct (Qle_bool (SortCompare by_pop x y) 0) eqn:Hc.
    + apply by_popularity_le in Hc. constructor.
      * now constructor.
      * constructor; [exact Hc|].
        eapply List.Forall_impl; [|exact Hall]. intros z Hz.
        eapply popularity_descending_trans; eauto.
    + apply by_popularity_gt in Hc. constructor; [exact IH|].
      apply List.Forall_forall. intros z Hz.
      apply (Permutation_in _ (insert_perm by_pop x rest)) in Hz.
      destruct Hz as [<-|Hz].
      * unfold popularity_descending. lra.
      * rewrite List.Forall_forall in Hall. now apply Hall.
Qed.

Lemma sort_by_popularity_sorted l :
  StronglySorted popularity_descending (Array_sort by_pop l).
Proof.
  induction l as [|x rest IH]; simpl.
  - constructor.
  - now apply insert_sorted.
Qed.

(** The sort is stable: groups of equal popularity keep their order. *)
Lemma insert_with_popularity k x l :
  with_popularity k (insert by_pop x l) = with_popularity k (x :: l).
Proof.
  induction l as [|y rest IH]; [reflexivity|]. simpl insert.
  destruct (Qle_bool (SortCompare by_pop x y) 0) eqn:Hc; [reflexivity|].
  apply by_popularity_gt in Hc.
  unfold with_popularity in *. simpl in *. rewrite IH.
  destruct (Qeq_bool (popularity_or_0 x) k) eqn:Hx; [|reflexivity].
  destruct (Qeq_bool (popularity_or_0 y) k) eqn:Hy; [|reflexivity].
  apply Qeq_bool_iff in Hx, Hy. lra.
Qed.

Lemma sort_by_popularity_stable k l :
  with_popularity k (Array_sort by_pop l) = with_popularity k l.
Proof.
  induction l as [|x rest IH]; [reflexivity|]. simpl Array_sort.
  rewrite insert_with_popularity. unfold with_popularity in *. simpl.
  now rewrite IH.
Qed.
End Popularity.

(** *** The filter *)

Lemma category_is_spec c g : category_is c g = true <-> category g = Some c.
Proof.
  unfold category_is. destruct (category g) as [c'|].
  - rewrite String.eqb_eq. split; congruence.
  - split; discriminate.
Qed.

Lemma filter_length_le {A} (f : A -> bool) (l : list A) :
  length (List.filter f l) <= length l.
Proof.
  induction l as [|x rest IH]; simpl; [lia|]. destruct (f x); simpl; lia.
Qed.

Section View.
Variable Date_getTime : string -> number.
Variable localeCompare : string -> string -> Q.

Local Abbreviation view := (filteredVideoGroups Date_getTime localeCompare).

Lemma view_all s :
  selectedCategory s = "all" -> Permutation (view s) (videoGroups s).
Proof.
  intros H. unfold filteredVideoGroups. rewrite H. simpl. apply Array_sort_perm.
Qed.

Lemma view_category s :
  selectedCategory s <> "all" ->
  Permutation (view s) (List.filter (category_is (selectedCategory s)) (videoGroups s)).
Proof.
  intros H. unfold filteredVideoGroups.
  apply String.eqb_neq in H. rewrite H. simpl. apply Array_sort_perm.
Qed.

Lemma view_length_le s : length (view s) <= length (videoGroups s).
Proof.
  unfold filteredVideoGroups. rewrite Array_sort_length.
  destruct (negb (selectedCategory s =? "all")%string); [apply filter_length_le|lia].
Qed.
End View.

(** C5.  Whatever the sort key: with the category [all] the view holds
    every group of the result set (it is a permutation of it); with any
    other category [c] it holds exactly the groups whose [category] is
    [c], as many times as the result set does, so a group without a
    category is in no such view; and the view for [all] is at least as long
    as the view for any category. *)
Theorem filtering_by_category Date_getTime localeCompare (s : State) :
  let view c k :=
    filteredVideoGroups Date_getTime localeCompare (set_sortBy k (set_selectedCategory c s)) in
  (forall k, Permutation (view "all" k) (videoGroups s))
  /\ (forall c k, c <> "all" ->
        Permutation (view c k) (List.filter (category_is c) (videoGroups s))
        /\ (forall g, In g (view c k) <-> In g (videoGroups s) /\ category g = Some c)
        /\ (forall g, category g = None -> ~ In g (view c k)))
  /\ (forall c k k', length (view c k) <= length (view "all" k')).
Proof.
  cbv zeta. split; [|split].
  - intros k.
    exact (view_all Date_getTime localeCompare
             (set_sortBy k (set_selectedCategory "all" s)) eq_refl).
  - intros c k Hc.
    assert (Hp : Permutation
                   (filteredVideoGroups Date_getTime localeCompare
                      (set_sortBy k (set_selectedCategory c s)))
                   (List.filter (category_is c) (videoGroups s)))
      by exact (view_category Date_getTime localeCompare
                  (set_sortBy k (set_selectedCategory c s)) Hc).
    assert (Hin : forall g,
               In g (filteredVideoGroups Date_getTime localeCompare
                       (set_sortBy k (set_selectedCategory c s)))
               <-> In g (videoGroups s) /\ category g = Some c).
    { intros g. rewrite <- category_is_spec, <- filter_In.
      split; apply Permutation_in; [|symmetry]; exact Hp. }
    split; [exact Hp|]. split; [exact Hin|].
    intros g Hg Hi. apply Hin in Hi as [_ Hi]. congruence.
  - intros c k k'.
    rewrite (Permutation_length (view_all Date_getTime localeCompare
               (set_sortBy k' (set_selectedCategory "all" s)) eq_refl)).
    apply (view_length_le Date_getTime localeCompare
             (set_sortBy k (set_selectedCategory c s))).
Qed.

(** C7.  Sorted by popularity, the view is in descending order of
    popularity with a missing popularity counted as 0, groups of equal
    popularity keep the order they had, and nothing is lost or added.  In
    particular, in whichever order the result set holds them, a group of
    popularity 90 comes before one of popularity 40, which comes before one
    without popularity. *)
Theorem sorting_by_popularity :
  (forall Date_getTime localeCompare (s : State),
      let view := filteredVideoGroups Date_getTime localeCompare
                    (set_sortBy by_popularity s) in
      StronglySorted popularity_descending view
      /\ (forall k, with_popularity k view
                    = with_popularity k
                        (if negb (selectedCategory s =? "all")%string
                         then List.filter (category_is (selectedCategory s)) (videoGroups s)
                         else videoGroups s))
      /\ Permutation view
            (if negb (selectedCategory s =? "all")%string
             then List.filter (category_is (selectedCategory s)) (videoGroups s)
             else videoGroups s))
  /\ Forall (fun groups =>
               Examples.shown (Examples.showing groups "all" by_popularity)
               = [Examples.hit; Examples.vlog; Examples.unrated])
            [[Examples.hit; Examples.vlog; Examples.unrated];
             [Examples.hit; Examples.unrated; Examples.vlog];
             [Examples.vlog; Examples.hit; Examples.unrated];
             [Examples.vlog; Examples.unrated; Examples.hit];
             [Examples.unrated; Examples.hit; Examples.vlog];
             [Examples.unrated; Examples.vlog; Examples.hit]].
Proof.
  split.
  - intros Date_getTime localeCompare s. cbv zeta. split; [|split].
    + apply sort_by_popularity_sorted.
    + intros k. apply sort_by_popularity_stable.
    + apply Array_sort_perm.
  - repeat constructor.
Qed.

(** *** The category list *)

Lemma filter_filter_ext {A} (P Q R : A -> bool) (l : list A) :
  (forall y, R y = Q y && P y) ->
  List.filter P (List.filter Q l) = List.filter R l.
Proof.
  intros H. induction l as [|x rest IH]; [reflexivity|]. simpl.
  rewrite (H x). destruct (Q x); simpl; [|exact IH].
  destruct (P x); now rewrite IH.
Qed.

Lemma existsb_eqb_In x l : existsb (String.eqb x) l = true <-> In x l.
Proof.
  rewrite existsb_exists. split.
  - intros (y & Hy & He). apply String.eqb_eq in He. now subst.
  - intros H. exists x. split; [exact H|apply String.eqb_refl].
Qed.

(** Adding the values one by one, as the [Set] constructor does, appends
    the values not yet present in first-seen order. *)
Lemma fold_Set_add l acc :
  fold_left (fun set x => Set_add x set) l acc
  = acc ++ List.filter (fun y => negb (existsb (String.eqb y) acc)) (first_seen l).
Proof.
  revert acc. induction l as [|x rest IH]; intros acc; simpl.
  - now rewrite app_nil_r.
  - unfold Set_add at 2. destruct (existsb (String.eqb x) acc) eqn:Hx; rewrite IH.
    + f_equal. simpl. symmetry. apply filter_filter_ext. intros y.
      destruct (String.eqb_spec y x) as [->|Hne]; simpl; [now rewrite Hx|reflexivity].
    + rewrite <- app_assoc. f_equal. simpl. f_equal. symmetry.
      apply filter_filter_ext. intros y. rewrite existsb_app. simpl.
      rewrite orb_false_r, negb_orb.
      destruct (String.eqb_spec y x) as [->|Hne]; simpl.
      * apply andb_false_r.
      * apply andb_true_r.
Qed.

Lemma new_Set_first_seen l : new_Set l = first_seen l.
Proof.
  unfold new_Set. rewrite fold_Set_add. simpl.
  induction (first_seen l) as [|x rest IH]; simpl; [reflexivity|]. now rewrite IH.
Qed.

Lemma first_seen_In x l : In x (first_seen l) <-> In x l.
Proof.
  induction l as [|y rest IH]; simpl; [reflexivity|].
  rewrite filter_In, IH, negb_true_iff, String.eqb_neq.
  destruct (String.eqb_spec x y) as [->|Hne]; [tauto|].
  split; [tauto|]. intros [H|H]; [congruence|tauto].
Qed.

Lemma first_seen_NoDup l : List.NoDup (first_seen l).
Proof.
  induction l as [|y rest IH]; simpl; constructor.
  - rewrite filter_In, String.eqb_refl. simpl. intros [_ H]. discriminate.
  - now apply List.NoDup_filter.
Qed.

Lemma categories_In c groups :
  In c (categories groups)
  <-> c <> "" /\ exists g, In g groups /\ category g = Some c.
Proof.
  unfold categories. rewrite in_flat_map. split.
  - intros (g & Hg & Hc). destruct (category g) as [c'|] eqn:Hcat; [|destruct Hc].
    unfold truthy in Hc. destruct (String.eqb_spec c' "") as [->|Hne]; simpl in Hc;
      [destruct Hc|].
    destruct Hc as [<-|[]]. split; [exact Hne|]. eauto.
  - intros (Hne & g & Hg & Hcat). exists g. split; [exact Hg|]. rewrite Hcat.
    unfold truthy. apply String.eqb_neq in Hne. rewrite Hne. simpl. now left.
Qed.

(** C9.  The category list is the sentinel [all] followed by the
    categories of the result set in first-seen order: these are distinct,
    none is empty, and each is the category of some group of the unfiltered
    result set, which all have their category listed unless it is missing
    or empty.  The list does not depend on the selected category or on the
    sort key. *)
Theorem category_list (s : State) :
  allCategories s = "all" :: first_seen (categories (videoGroups s))
  /\ List.NoDup (tl (allCategories s))
  /\ (forall c, In c (tl (allCategories s))
                <-> c <> "" /\ exists g, In g (videoGroups s) /\ category g = Some c)
  /\ (forall c k, allCategories (set_sortBy k (set_selectedCategory c s)) = allCategories s)
  /\ allCategories
        (Examples.showing
           [Examples.lesson; Examples.hit; Examples.unrated; Examples.vlog;
            Examples.lesson; Examples.unlabelled; Examples.hit]
           "Vlog" by_title)
      = ["all"; "Tutorial"; "Music Video"; "Vlog"].
Proof.
  split; [|split; [|split; [|split]]].
  - unfold allCategories. now rewrite new_Set_first_seen.
  - unfold allCategories. simpl tl. rewrite new_Set_first_seen. apply first_seen_NoDup.
  - intros c. unfold allCategories. simpl tl.
    rewrite new_Set_first_seen, first_seen_In. apply categories_In.
  - reflexivity.
  - reflexivity.
Qed.

(** *** History *)

Local Abbreviation other_than url := (fun h : string => negb (String.eqb h url)).

Lemma other_than_In url h history :
  In h (List.filter (other_than url) history) <-> In h history /\ h <> url.
Proof. now rewrite filter_In, negb_true_iff, String.eqb_neq. Qed.

Lemma filter_other_than_absent url history :
  ~ In url history -> List.filter (other_than url) history = history.
Proof.
  induction history as [|h rest IH]; simpl; [reflexivity|]. intros H.
  destruct (String.eqb_spec h url) as [->|Hne]; simpl; [tauto|].
  rewrite IH; [reflexivity|tauto].
Qed.

Lemma filter_other_than_perm url history :
  List.NoDup history -> In url history ->
  Permutation (url :: List.filter (other_than url) history) history.
Proof.
  induction 1 as [|h rest Hh Hnd IH]; simpl; [tauto|]. intros [->|Hin].
  - rewrite String.eqb_refl. simpl. now rewrite filter_other_than_absent.
  - destruct (String.eqb_spec h url) as [->|Hne]; simpl; [tauto|].
    rewrite perm_swap. apply perm_skip. now apply IH.
Qed.

Lemma firstn_In {A} n (x : A) l : In x (firstn n l) -> In x l.
Proof.
  revert l. induction n as [|n IH]; intros [|y rest]; simpl; try tauto.
  intros [H|H]; [now left|right; now apply IH].
Qed.

Lemma firstn_NoDup {A} n (l : list A) : List.NoDup l -> List.NoDup (firstn n l).
Proof.
  revert l. induction n as [|n IH]; intros l H; [constructor|].
  destruct H as [|y rest Hy Hnd]; simpl; constructor.
  - intros Hin. apply Hy. now apply firstn_In in Hin.
  - now apply IH.
Qed.

Lemma limitedHistory_cons url history :
  limitedHistory url history = url :: firstn 9 (List.filter (other_than url) history).
Proof. reflexivity. Qed.

(** C6.  The new history is the searched URL followed by the old entries
    other than that URL, in their order, cut to 10 entries: it starts with
    the URL, holds it once, holds nothing new besides, and stays free of
    duplicates.  Searching again a URL of a duplicate-free history of at
    most 10 entries only reorders it; searching a URL that is new to a
    history of 10 entries drops the last, oldest one.  The component stores
    this list in [urlHistory] whether or not it can be persisted: after
    [updateHistory] the signal holds exactly this list, a storage that
    works holds it too, and the other signals are what they were.  From an
    empty history, a.test, b.test, a.test leave [a.test; b.test], and
    eleven distinct URLs leave the last ten, most recent first. *)
Theorem history_update (url : string) (history : list string) :
  let updated := limitedHistory url history in
  updated = firstn 10 (url :: List.filter (other_than url) history)
  /\ (exists rest, updated = url :: rest /\ ~ In url rest
                   /\ forall h, In h rest -> In h history)
  /\ length updated <= 10
  /\ (List.NoDup history -> List.NoDup updated)
  /\ (List.NoDup history -> In url history -> length history <= 10 ->
      Permutation updated history)
  /\ (~ In url history -> length history < 10 -> updated = url :: history)
  /\ (~ In url history -> length history = 10 -> updated = url :: removelast history)
  /\ (forall s ls,
        urlHistory s = history ->
        fst (updateHistory url (s, ls)) = set_urlHistory updated s
        /\ snd (updateHistory url (s, ls))
           = (if available ls then mkStorage (Some updated) true else ls)
        /\ urlHistory (fst (updateHistory url (s, ls))) = updated
        /\ item (snd (updateHistory url (s, ls)))
           = (if available ls then Some updated else item ls)
        /\ videoGroups (fst (updateHistory url (s, ls))) = videoGroups s
        /\ AppComponent.url (fst (updateHistory url (s, ls))) = AppComponent.url s
        /\ error (fst (updateHistory url (s, ls))) = error s
        /\ isLoading (fst (updateHistory url (s, ls))) = isLoading s)
  /\ fold_left (fun h u => limitedHistory u h)
        ["https://a.test"; "https://b.test"; "https://a.test"] []
      = ["https://a.test"; "https://b.test"]
  /\ fold_left (fun h u => limitedHistory u h)
        ["u1"; "u2"; "u3"; "u4"; "u5"; "u6"; "u7"; "u8"; "u9"; "u10"; "u11"] []
      = ["u11"; "u10"; "u9"; "u8"; "u7"; "u6"; "u5"; "u4"; "u3"; "u2"]
  /\ (let w := fold_left (fun w u => updateHistory u w)
                 ["https://a.test"; "https://b.test"; "https://a.test"]
                 (AppComponent.initial, Examples.empty_storage) in
      urlHistory (fst w) = ["https://a.test"; "https://b.test"]
      /\ item (snd w) = Some ["https://a.test"; "https://b.test"])
  /\ (let w := fold_left (fun w u => updateHistory u w)
                 ["u1"; "u2"; "u3"; "u4"; "u5"; "u6"; "u7"; "u8"; "u9"; "u10"; "u11"]
                 (AppComponent.initial, Examples.empty_storage) in
      urlHistory (fst w)
      = ["u11"; "u10"; "u9"; "u8"; "u7"; "u6"; "u5"; "u4"; "u3"; "u2"]
      /\ length (urlHistory (fst w)) = 10).
Proof.
  cbv zeta. split; [reflexivity|]. split; [|split; [|split; [|split; [|split; [|split; [|split]]]]]].
  - exists (firstn 9 (List.filter (other_than url) history)).
    split; [reflexivity|]. split.
    + intros H. apply firstn_In, other_than_In in H. tauto.
    + intros h H. apply firstn_In, other_than_In in H. tauto.
  - unfold limitedHistory. apply firstn_le_length.
  - intros Hnd. rewrite limitedHistory_cons. constructor.
    + intros H. apply firstn_In, other_than_In in H. tauto.
    + apply firstn_NoDup. now apply List.NoDup_filter.
  - intros Hnd Hin Hlen. unfold limitedHistory.
    pose proof (filter_other_than_perm url history Hnd Hin) as Hp.
    rewrite firstn_all2; [exact Hp|].
    rewrite (Permutation_length Hp). exact Hlen.
  - intros Hnin Hlen. unfold limitedHistory.
    rewrite filter_other_than_absent by exact Hnin.
    apply firstn_all2. simpl. lia.
  - intros Hnin Hlen. rewrite limitedHistory_cons.
    rewrite filter_other_than_absent by exact Hnin.
    rewrite removelast_firstn_len, Hlen. reflexivity.
  - intros s ls <-. unfold updateHistory, setItem. simpl.
    destruct (available ls); repeat split.
  - repeat split.
Qed.

(** *** The search *)

Section SearchFacts.
Variable URL : URLConstructor.

Lemma isValidUrl_spec input :
  isValidUrl URL input = true
  <-> exists u, URL input None = Some u
                /\ (protocol u = "http:" \/ protocol u = "https:").
Proof.
  unfold isValidUrl. destruct (URL input None) as [u|].
  - rewrite orb_true_iff, !String.eqb_eq. split.
    + intros H. exists u. auto.
    + intros (u' & Hu & H). injection Hu as <-. exact H.
  - split; [discriminate|]. intros (u & Hu & _). discriminate.
Qed.

Lemma submit_rejected s :
  isValidUrl URL (url s) = false ->
  submit URL s = (set_error (Some validation_message) s, None).
Proof. intros H. unfold submit. now rewrite H. Qed.

Lemma submit_accepted s :
  isValidUrl URL (url s) = true ->
  submit URL s = (begin_search s, Some (url s)).
Proof. intros H. unfold submit. now rewrite H. Qed.

Lemma begin_search_in_flight s : in_flight (begin_search s).
Proof. repeat split. Qed.

Lemma submit_in_flight s : in_flight s -> in_flight (fst (submit URL s)).
Proof.
  intros H. unfold submit. destruct (isValidUrl URL (url s)); simpl.
  - apply begin_search_in_flight.
  - exact H.
Qed.

(** No handler other than the continuation of a search touches what a
    search in flight relies on. *)
Lemma handle_in_flight e w :
  is_settled e = false -> in_flight (fst w) -> in_flight (fst (handle URL e w)).
Proof.
  destruct w as [s ls]. intros He H. destruct e; try discriminate; simpl in *.
  - unfold loadHistory. destruct (available ls); [|exact H].
    destruct (item ls); exact H.
  - now apply submit_in_flight.
  - now apply (submit_in_flight (set_url u s)).
  - unfold onUrlChange. simpl. destruct (error s) as [m|]; [|exact H].
    destruct (truthy m); exact H.
  - exact H.
  - exact H.
  - exact H.
  - exact H.
  - exact H.
  - destruct (copiedUrl s =? u)%string; exact H.
  - exact H.
Qed.

Lemma run_in_flight es w :
  none_settles es = true -> in_flight (fst w) -> in_flight (fst (run URL es w)).
Proof.
  revert w. induction es as [|e rest IH]; intros w Hes H; [exact H|].
  simpl in Hes. apply andb_true_iff in Hes as [He Hrest].
  apply negb_true_iff in He. simpl. apply IH; [exact Hrest|].
  now apply handle_in_flight.
Qed.

Lemma none_settles_firstn k es :
  none_settles es = true -> none_settles (firstn k es) = true.
Proof.
  unfold none_settles. rewrite !forallb_forall. intros H e He.
  apply H. revert He. apply firstn_In.
Qed.

Lemma or_else_truthy x d : d <> "" -> or_else x d <> "".
Proof.
  intros Hd. unfold or_else. destruct x as [m|]; [|exact Hd].
  unfold truthy. destruct (String.eqb_spec m ""); simpl; assumption.
Qed.

Lemma settle_failure urlToSearch o e w :
  o = Throws e \/ o = Returns (Rejected e) ->
  fst (settle urlToSearch o w)
  = set_isLoading false (set_error (Some (or_else (message e) unknown_error)) (fst w)).
Proof. destruct w as [s ls]. intros [-> | ->]; reflexivity. Qed.

Lemma settle_not_loading urlToSearch o w :
  isLoading (fst (settle urlToSearch o w)) = false.
Proof. destruct w as [s ls]. destruct o as [[gs|e]|e]; reflexivity. Qed.
End SearchFacts.

(** C3 as worded fails, for the component does not keep searches from
    overlapping.  The search for [https://a.test] passes validation and its
    call is in flight; meanwhile [https://b.test] is chosen from the history
    and its call is resolved with one group.  At that point [isLoading] is
    false although the first call has not settled; and when the first call
    is then rejected, the resulting state has its error beside the group of
    the second search: [videoGroups] is not empty. *)
Lemma overlapping_searches_race :
  let a := Examples.typed "https://a.test" in
  let started := run WHATWG.URL
                   [FindVideos; LoadFromHistory "https://b.test";
                    Settled "https://b.test" (Returns (Resolved [Examples.hit]))]
                   (a, Examples.empty_storage) in
  let failed := settle "https://a.test"
                  (Returns (Rejected (Error GeminiService.failure_message))) started in
  snd (submit WHATWG.URL a) = Some "https://a.test"
  /\ isLoading (fst started) = false
  /\ videoGroups (fst failed) = [Examples.hit]
  /\ error (fst failed) = Some GeminiService.failure_message
  /\ ~ (videoGroups (fst failed) = [])
  /\ ~ (isLoading (fst started) = true).
Proof. vm_compute. repeat split; discriminate. Qed.

(** Three searches through the component and the service: the history is
    reordered, persisted, and the model is invoked once per distinct URL. *)
Example searching_a_b_a :
  let w := Examples.search [Examples.hit] "https://a.test"
             (Examples.search [Examples.hit] "https://b.test"
                (Examples.search [Examples.hit] "https://a.test" Examples.fresh)) in
  urlHistory (ui w) = ["https://a.test"; "https://b.test"]
  /\ item (storage w) = Some ["https://a.test"; "https://b.test"]
  /\ videoGroups (ui w) = [Examples.hit]
  /\ isLoading (ui w) = false /\ error (ui w) = None
  /\ GeminiService.calls (service w) = 2.
Proof. vm_compute. repeat split. Qed.

(** C3, amended.  Take a search that passed validation, any events handled
    while its call is in flight, none of them the continuation of another
    search (the single outstanding search the design assumes), and a call that
    fails, by throwing synchronously or by returning a promise that is
    rejected.  Then
    [isLoading] is true from the submission on and after each of these
    events; once the failure is handled, [videoGroups] is empty, [error] is
    a non-empty message (the thrown value's, or the fixed fallback),
    [isLoading] is false and [hasSearched] is true.  [isLoading] is false
    after any continuation, so on the success path too; and the same holds
    for [findVideos] run as a whole with any injected service whose call
    fails. *)
Theorem failed_search URL (s : State) (ls : Storage) (es : list Event)
    (e : Thrown) (o : CallOutcome) :
  isValidUrl URL (url s) = true ->
  none_settles es = true ->
  o = Throws e \/ o = Returns (Rejected e) ->
  let started := submit URL s in
  let flight k := run URL (firstn k es) (fst started, ls) in
  let failed := fst (settle (url s) o (run URL es (fst started, ls))) in
  snd started = Some (url s)
  /\ (forall k, isLoading (fst (flight k)) = true)
  /\ videoGroups failed = []
  /\ error failed = Some (or_else (message e) unknown_error)
  /\ or_else (message e) unknown_error <> ""
  /\ isLoading failed = false
  /\ hasSearched failed = true
  /\ (forall o' w, isLoading (fst (settle (url s) o' w)) = false)
  /\ (forall (ServiceState : Type) findVideosInUrl (st : ServiceState),
        fst (findVideosInUrl (url s) st) = o ->
        ui (findVideos URL findVideosInUrl (mkWorld s ls st))
        = fst (settle (url s) o (fst started, ls))).
Proof.
  intros Hvalid Hes Ho. cbv zeta. rewrite (submit_accepted URL s Hvalid).
  change (fst (begin_search s, Some (url s))) with (begin_search s).
  change (snd (begin_search s, Some (url s))) with (Some (url s)).
  pose proof (run_in_flight URL es (begin_search s, ls) Hes (begin_search_in_flight s))
    as (Hl & Hv & Hh).
  rewrite (settle_failure (url s) o e (run URL es (begin_search s, ls)) Ho).
  split; [reflexivity|]. split.
  { intros k.
    now apply (run_in_flight URL (firstn k es) (begin_search s, ls)
                 (none_settles_firstn k es Hes) (begin_search_in_flight s)). }
  split; [exact Hv|]. split; [reflexivity|].
  split; [now apply or_else_truthy|]. split; [reflexivity|]. split; [exact Hh|].
  split; [intros o' w; apply settle_not_loading|].
  intros ServiceState findVideosInUrl st Hcall. unfold findVideos.
  change (ui (mkWorld s ls st)) with s. rewrite (submit_accepted URL s Hvalid).
  change (service (mkWorld s ls st)) with st.
  change (storage (mkWorld s ls st)) with ls.
  destruct (findVideosInUrl (url s) st) as [o0 st0]. simpl in Hcall. subst o0.
  destruct (settle (url s) o (begin_search s, ls)) as [s' ls']. reflexivity.
Qed.

(** C4.  A submission is accepted exactly when [new URL] parses the input
    and the protocol of the result is [http:] or [https:]; so an input that
    does not parse and an input that parses to an [ftp:] URL are rejected.
    A rejected submission sets [error] to the fixed message and changes
    nothing else: every other signal ([isLoading], [videoGroups] and
    [hasSearched] among them) is what it was, so is the storage, and the
    service is not called.  An accepted submission shows no validation
    message, sets [isLoading] and hands the input to the service, whose
    state after the search is the one that call leaves.  With the modelled
    URL parser the empty string and [not a url] do not parse,
    [ftp://x.test] parses to an [ftp:] URL, and of the five inputs listed
    the first three get the message and no call, the last two a call and no
    message. *)
Theorem validation :
  (forall URL input,
      isValidUrl URL input = true
      <-> exists u, URL input None = Some u
                    /\ (protocol u = "http:" \/ protocol u = "https:"))
  /\ (forall URL input, URL input None = None -> isValidUrl URL input = false)
  /\ (forall URL input u,
        URL input None = Some u -> protocol u = "ftp:" -> isValidUrl URL input = false)
  /\ (forall URL (ServiceState : Type) findVideosInUrl (w : World ServiceState),
        isValidUrl URL (url (ui w)) = false ->
        findVideos URL findVideosInUrl w
        = mkWorld (set_error (Some validation_message) (ui w)) (storage w) (service w))
  /\ (forall v s,
        isLoading (set_error v s) = isLoading s
        /\ videoGroups (set_error v s) = videoGroups s
        /\ hasSearched (set_error v s) = hasSearched s)
  /\ WHATWG.URL_parse "" None = WHATWG.Failure
  /\ WHATWG.URL_parse "not a url" None = WHATWG.Failure
  /\ WHATWG.URL "ftp://x.test" None = Some (mkURL "ftp:" "ftp://x.test/")
  /\ map (isValidUrl WHATWG.URL)
         [""; "not a url"; "ftp://x.test"; "https://x.test"; "http://x.test"]
     = [false; false; false; true; true]
  /\ (forall URL (ServiceState : Type) findVideosInUrl (w : World ServiceState),
        isValidUrl URL (url (ui w)) = false ->
        let w' := findVideos URL findVideosInUrl w in
        error (ui w') = Some validation_message
        /\ url (ui w') = url (ui w)
        /\ videoGroups (ui w') = videoGroups (ui w)
        /\ isLoading (ui w') = isLoading (ui w)
        /\ hasSearched (ui w') = hasSearched (ui w)
        /\ isModalOpen (ui w') = isModalOpen (ui w)
        /\ selectedVideoGroup (ui w') = selectedVideoGroup (ui w)
        /\ copiedUrl (ui w') = copiedUrl (ui w)
        /\ urlHistory (ui w') = urlHistory (ui w)
        /\ selectedCategory (ui w') = selectedCategory (ui w)
        /\ sortBy (ui w') = sortBy (ui w)
        /\ storage w' = storage w
        /\ service w' = service w
        /\ snd (submit URL (ui w)) = None)
  /\ (forall URL (ServiceState : Type) findVideosInUrl (w : World ServiceState),
        isValidUrl URL (url (ui w)) = true ->
        let w' := findVideos URL findVideosInUrl w in
        snd (submit URL (ui w)) = Some (url (ui w))
        /\ error (fst (submit URL (ui w))) = None
        /\ isLoading (fst (submit URL (ui w))) = true
        /\ hasSearched (ui w') = true
        /\ isLoading (ui w') = false
        /\ service w' = snd (findVideosInUrl (url (ui w)) (service w)))
  /\ map (fun input => snd (submit WHATWG.URL (Examples.typed input)))
         [""; "not a url"; "ftp://x.test"; "https://x.test"; "http://x.test"]
     = [None; None; None; Some "https://x.test"; Some "http://x.test"]
  /\ map (fun input => error (fst (submit WHATWG.URL (Examples.typed input))))
         [""; "not a url"; "ftp://x.test"; "https://x.test"; "http://x.test"]
     = [Some validation_message; Some validation_message; Some validation_message;
        None; None].
Proof.
  split; [exact isValidUrl_spec|]. split; [|split; [|split; [|split]]].
  - intros URL input H. unfold isValidUrl. now rewrite H.
  - intros URL input u Hu Hp. unfold isValidUrl. now rewrite Hu, Hp.
  - intros URL ServiceState findVideosInUrl w H. unfold findVideos.
    now rewrite (submit_rejected URL (ui w) H).
  - intros v s. repeat split.
  - split; [vm_compute; reflexivity|]. split; [vm_compute; reflexivity|].
    split; [vm_compute; reflexivity|]. split; [vm_compute; reflexivity|].
    split; [|split; [|split; vm_compute; reflexivity]].
    + intros URL ServiceState findVideosInUrl w H. cbv zeta. unfold findVideos.
      rewrite (submit_rejected URL (ui w) H). repeat split.
    + intros URL ServiceState findVideosInUrl w H. cbv zeta. unfold findVideos.
      rewrite (submit_accepted URL (ui w) H).
      change (snd (begin_search (ui w), Some (url (ui w)))) with (Some (url (ui w))).
      change (fst (begin_search (ui w), Some (url (ui w)))) with (begin_search (ui w)).
      destruct (findVideosInUrl (url (ui w)) (service w)) as [o st'].
      destruct o as [[gs|e]|e]; repeat split.
Qed.

(** *** The theorems applied to concrete inputs *)

Lemma validation_witness :
  let rejected := findVideos WHATWG.URL (Examples.service [] Examples.unavailable)
                    (mkWorld (set_hasSearched true (Examples.typed "ftp://x.test"))
                       Examples.empty_storage GeminiService.initial) in
  let accepted := findVideos WHATWG.URL
                    (Examples.service [Examples.hit] (Examples.answers Examples.reply))
                    (mkWorld (Examples.typed "https://x.test")
                       Examples.empty_storage GeminiService.initial) in
  isValidUrl WHATWG.URL "ftp://x.test" = false
  /\ isValidUrl WHATWG.URL "https://x.test" = true
  /\ (error (ui rejected) = Some validation_message
      /\ isLoading (ui rejected) = false
      /\ videoGroups (ui rejected) = []
      /\ hasSearched (ui rejected) = true
      /\ GeminiService.calls (service rejected) = 0)
  /\ (snd (submit WHATWG.URL (Examples.typed "https://x.test")) = Some "https://x.test"
      /\ hasSearched (ui accepted) = true
      /\ GeminiService.calls (service accepted) = 1).
Proof.
  cbv zeta.
  assert (Hf : isValidUrl WHATWG.URL "ftp://x.test" = false) by (vm_compute; reflexivity).
  assert (Ht : isValidUrl WHATWG.URL "https://x.test" = true) by (vm_compute; reflexivity).
  split; [exact Hf|]. split; [exact Ht|].
  destruct validation as (_ & _ & _ & _ & _ & _ & _ & _ & _ & Hrej & Hacc & _).
  split.
  - destruct (Hrej WHATWG.URL GeminiService.ServiceState
                (Examples.service [] Examples.unavailable)
                (mkWorld (set_hasSearched true (Examples.typed "ftp://x.test"))
                   Examples.empty_storage GeminiService.initial) Hf)
      as (He & _ & Hv & Hl & Hh & _ & _ & _ & _ & _ & _ & _ & Hs & _).
    split; [exact He|]. split; [exact Hl|]. split; [exact Hv|]. split; [exact Hh|].
    now rewrite Hs.
  - destruct (Hacc WHATWG.URL GeminiService.ServiceState
                (Examples.service [Examples.hit] (Examples.answers Examples.reply))
                (mkWorld (Examples.typed "https://x.test")
                   Examples.empty_storage GeminiService.initial) Ht)
      as (Hc & _ & _ & Hh & _ & Hs).
    split; [exact Hc|]. split; [exact Hh|]. rewrite Hs. vm_compute. reflexivity.
Defined.

Lemma failed_search_witness :
  let s := Examples.typed "https://x.test" in
  let es := [OnUrlChange "https://y.test"; SetSortBy by_title; FindVideos;
             ClipboardWritten "https://cdn.test/v.mp4"; ClearHistory] in
  let o := fst (Examples.service [] Examples.unavailable "https://x.test"
                  GeminiService.initial) in
  let failed := fst (settle "https://x.test" o
                       (run WHATWG.URL es
                          (fst (submit WHATWG.URL s), Examples.empty_storage))) in
  isValidUrl WHATWG.URL (url s) = true
  /\ none_settles es = true
  /\ o = Returns (Rejected (Error GeminiService.failure_message))
  /\ videoGroups failed = []
  /\ error failed = Some GeminiService.failure_message
  /\ isLoading failed = false
  /\ hasSearched failed = true.
Proof.
  cbv zeta.
  assert (Hv : isValidUrl WHATWG.URL (url (Examples.typed "https://x.test")) = true)
    by (vm_compute; reflexivity).
  split; [exact Hv|]. split; [reflexivity|]. split; [reflexivity|].
  destruct (failed_search WHATWG.URL (Examples.typed "https://x.test")
              Examples.empty_storage
              [OnUrlChange "https://y.test"; SetSortBy by_title; FindVideos;
               ClipboardWritten "https://cdn.test/v.mp4"; ClearHistory]
              (Error GeminiService.failure_message)
              (Returns (Rejected (Error GeminiService.failure_message)))
              Hv eq_refl (or_intror eq_refl))
    as (_ & _ & H1 & H2 & _ & H3 & H4 & _).
  repeat split; assumption.
Defined.

Lemma filtering_by_category_witness :
  let s := Examples.showing
             [Examples.vlog; Examples.lesson; Examples.unrated; Examples.hit; Examples.lesson]
             "all" by_title in
  "Tutorial" <> "all"
  /\ Permutation
       (Examples.shown (set_sortBy by_popularity (set_selectedCategory "Tutorial" s)))
       [Examples.lesson; Examples.lesson]
  /\ ~ In Examples.unrated
         (Examples.shown (set_sortBy by_popularity (set_selectedCategory "Tutorial" s)))
  /\ length (Examples.shown (set_sortBy by_popularity (set_selectedCategory "Tutorial" s)))
     <= length (Examples.shown (set_sortBy by_title (set_selectedCategory "all" s))).
Proof.
  cbv zeta.
  assert (Hne : "Tutorial" <> "all") by discriminate.
  split; [exact Hne|].
  destruct (filtering_by_category Examples.no_dates Examples.ordinal_compare
              (Examples.showing
                 [Examples.vlog; Examples.lesson; Examples.unrated; Examples.hit;
                  Examples.lesson] "all" by_title))
    as (_ & Hcat & Hlen).
  destruct (Hcat "Tutorial" by_popularity Hne) as (Hp & _ & Hnone).
  split; [exact Hp|]. split; [apply Hnone; reflexivity|].
  exact (Hlen "Tutorial" by_popularity by_title).
Defined.

Lemma history_update_witness :
  let full := ["u10"; "u9"; "u8"; "u7"; "u6"; "u5"; "u4"; "u3"; "u2"; "u1"] in
  let s := mkState "u11" [Examples.hit] false None true false None "" full "all"
             by_popularity in
  (~ In "u11" full /\ length full = 10
   /\ limitedHistory "u11" full
      = ["u11"; "u10"; "u9"; "u8"; "u7"; "u6"; "u5"; "u4"; "u3"; "u2"])
  /\ (List.NoDup full /\ In "u3" full
      /\ Permutation (limitedHistory "u3" full) full)
  /\ (urlHistory s = full
      /\ urlHistory (fst (updateHistory "u11" (s, Examples.empty_storage)))
         = ["u11"; "u10"; "u9"; "u8"; "u7"; "u6"; "u5"; "u4"; "u3"; "u2"]
      /\ item (snd (updateHistory "u11" (s, Examples.empty_storage)))
         = Some ["u11"; "u10"; "u9"; "u8"; "u7"; "u6"; "u5"; "u4"; "u3"; "u2"]
      /\ videoGroups (fst (updateHistory "u11" (s, Examples.empty_storage)))
         = [Examples.hit]).
Proof.
  cbv zeta.
  assert (Hnin : ~ In "u11" ["u10"; "u9"; "u8"; "u7"; "u6"; "u5"; "u4"; "u3"; "u2"; "u1"]).
  { simpl. intros H. repeat (destruct H as [H|H]; [discriminate|]). exact H. }
  assert (Hnd : List.NoDup ["u10"; "u9"; "u8"; "u7"; "u6"; "u5"; "u4"; "u3"; "u2"; "u1"]).
  { repeat (constructor;
            [simpl; intros H; repeat (destruct H as [H|H]; [discriminate|]); exact H|]).
    constructor. }
  assert (Hin : In "u3" ["u10"; "u9"; "u8"; "u7"; "u6"; "u5"; "u4"; "u3"; "u2"; "u1"]).
  { simpl. tauto. }
  destruct (history_update "u11"
              ["u10"; "u9"; "u8"; "u7"; "u6"; "u5"; "u4"; "u3"; "u2"; "u1"])
    as (_ & _ & _ & _ & _ & _ & Hevict & Hstate & _).
  destruct (history_update "u3"
              ["u10"; "u9"; "u8"; "u7"; "u6"; "u5"; "u4"; "u3"; "u2"; "u1"])
    as (_ & _ & _ & _ & Hperm & _).
  split; [|split].
  - split; [exact Hnin|]. split; [reflexivity|]. exact (Hevict Hnin eq_refl).
  - split; [exact Hnd|]. split; [exact Hin|]. apply (Hperm Hnd Hin). simpl. lia.
  - destruct (Hstate
                (mkState "u11" [Examples.hit] false None true false None ""
                   ["u10"; "u9"; "u8"; "u7"; "u6"; "u5"; "u4"; "u3"; "u2"; "u1"]
                   "all" by_popularity)
                Examples.empty_storage eq_refl)
      as (_ & _ & Hu & Hi & Hv & _).
    rewrite (Hevict Hnin eq_refl) in Hu, Hi.
    split; [reflexivity|]. split; [exact Hu|]. split; [exact Hi|]. exact Hv.
Defined.

End ComponentFacts.

(* ===================================================================== *)
(** ** The service over many calls *)
(* ===================================================================== *)

Module ServiceCoverage.
Import Model GeminiService Application.

Section Calls.
Variable URL : URLConstructor.
Variable trim : string -> string.
Variable JSON_parse : string -> option (list VideoGroup).
Variable genAI : GenAI.

Local Abbreviation call := (findVideosInUrl URL trim JSON_parse genAI).
Local Abbreviation call_all := (resolve_all URL trim JSON_parse genAI).

Lemma call_keeps_entries u st k v :
  cache st !! k = Some v -> cache (snd (call u st)) !! k = Some v.
Proof.
  intros Hk. unfold findVideosInUrl.
  destruct (cache st !! u) as [cached|] eqn:Hu; [exact Hk|].
  destruct (analyze URL trim JSON_parse genAI (calls st) u) as [gs|]; [|exact Hk].
  simpl. rewrite lookup_insert_ne; [exact Hk|]. intros ->. congruence.
Qed.

Lemma call_new_entries u st k v :
  cache (snd (call u st)) !! k = Some v -> cache st !! k = Some v \/ k = u.
Proof.
  unfold findVideosInUrl.
  destruct (cache st !! u) as [cached|] eqn:Hu; [now left|].
  destruct (analyze URL trim JSON_parse genAI (calls st) u) as [gs|]; [|now left].
  simpl. destruct (decide (u = k)) as [->|Hne]; [now right|].
  rewrite lookup_insert_ne by exact Hne. now left.
Qed.

Lemma call_counts u st :
  calls st <= calls (snd (call u st)) <= S (calls st).
Proof.
  unfold findVideosInUrl.
  destruct (cache st !! u) as [cached|]; [simpl; lia|].
  destruct (analyze URL trim JSON_parse genAI (calls st) u) as [gs|]; simpl; lia.
Qed.

Lemma call_all_cons u urls st : call_all (u :: urls) st = call_all urls (snd (call u st)).
Proof. reflexivity. Qed.

Lemma call_all_keeps_entries urls st k v :
  cache st !! k = Some v -> cache (call_all urls st) !! k = Some v.
Proof.
  revert st. induction urls as [|u rest IH]; intros st Hk; [exact Hk|].
  rewrite call_all_cons. apply IH. now apply call_keeps_entries.
Qed.
End Calls.

(** When the calls run to completion one after the other, an entry of the
    cache stays as it is: after any further calls, for this or for other
    URLs and whatever the model answers to them, a call for a cached URL
    returns the cached value and leaves the service as it is. *)
Theorem cached_result_is_kept URL trim JSON_parse genAI genAI' url urls st v :
  cache st !! url = Some v ->
  let st' := resolve_all URL trim JSON_parse genAI urls st in
  cache st' !! url = Some v
  /\ findVideosInUrl URL trim JSON_parse genAI' url st' = (Resolved v, st').
Proof.
  intros Hk. cbv zeta.
  assert (H : cache (resolve_all URL trim JSON_parse genAI urls st) !! url = Some v)
    by now apply call_all_keeps_entries.
  split; [exact H|]. unfold findVideosInUrl. now rewrite H.
Qed.

Lemma cached_result_is_kept_witness :
  let st := snd (Examples.resolve [Examples.hit] (Examples.answers Examples.reply)
                   "https://a.test" initial) in
  let st' := resolve_all WHATWG.URL Examples.ascii_trim (Examples.parses_to [Examples.vlog])
               (Examples.recovers Examples.reply)
               ["https://b.test"; "https://a.test"; "https://c.test"] st in
  cache st !! "https://a.test" = Some [Examples.hit]
  /\ cache st' !! "https://a.test" = Some [Examples.hit]
  /\ Examples.resolve [] Examples.unavailable "https://a.test" st'
     = (Resolved [Examples.hit], st').
Proof.
  cbv zeta.
  assert (H : cache (snd (Examples.resolve [Examples.hit] (Examples.answers Examples.reply)
                            "https://a.test" initial)) !! "https://a.test"
              = Some [Examples.hit]) by (vm_compute; reflexivity).
  split; [exact H|].
  exact (cached_result_is_kept WHATWG.URL Examples.ascii_trim
           (Examples.parses_to [Examples.vlog]) (Examples.recovers Examples.reply)
           Examples.unavailable "https://a.test"
           ["https://b.test"; "https://a.test"; "https://c.test"] _ [Examples.hit] H).
Defined.

(** X2.  Over any calls run one after the other, the model is invoked at
    most once per call and the count never decreases, and the cache gains
    entries only for URLs that were requested: every entry afterwards was
    there before or is keyed by one of the requested strings. *)
Theorem calls_are_bounded URL trim JSON_parse genAI urls st :
  let st' := resolve_all URL trim JSON_parse genAI urls st in
  calls st <= calls st' <= calls st + length urls
  /\ forall k v, cache st' !! k = Some v -> cache st !! k = Some v \/ In k urls.
Proof.
  cbv zeta. revert st. induction urls as [|u rest IH]; intros st.
  - simpl. split; [lia|]. intros k v H. now left.
  - rewrite call_all_cons.
    destruct (IH (snd (findVideosInUrl URL trim JSON_parse genAI u st))) as [Hc Hk].
    pose proof (call_counts URL trim JSON_parse genAI u st) as Hu.
    split; [simpl length; lia|].
    intros k v H. apply Hk in H as [H|H]; [|right; now right].
    apply call_new_entries in H as [H | ->]; [now left|right; now left].
Qed.

End ServiceCoverage.

(* ===================================================================== *)
(** ** The component: file names, invariants of the signals, sorting *)
(* ===================================================================== *)

Module ComponentCoverage.
Import Model AppComponent ComponentSpec CoverageSpec.

(** *** The download file name *)

Lemma clean_cons c s : clean (String c s) = String (clean_char c) (clean s).
Proof. reflexivity. Qed.

Lemma clean_char_file_char c : file_char (clean_char c) = true.
Proof.
  destruct c as [b0 b1 b2 b3 b4 b5 b6 b7].
  destruct b0, b1, b2, b3, b4, b5, b6, b7; vm_compute; reflexivity.
Qed.

Lemma clean_char_idempotent c : clean_char (clean_char c) = clean_char c.
Proof.
  destruct c as [b0 b1 b2 b3 b4 b5 b6 b7].
  destruct b0, b1, b2, b3, b4, b5, b6, b7; vm_compute; reflexivity.
Qed.

Lemma clean_all_chars s : all_chars file_char (clean s) = true.
Proof.
  induction s as [|c s IH]; [reflexivity|].
  rewrite clean_cons. simpl. now rewrite clean_char_file_char, IH.
Qed.

Lemma clean_length s : String.length (clean s) = String.length s.
Proof. induction s as [|c s IH]; [reflexivity|]. rewrite clean_cons. simpl. now rewrite IH. Qed.

Lemma clean_idempotent s : clean (clean s) = clean s.
Proof.
  induction s as [|c s IH]; [reflexivity|].
  rewrite !clean_cons. now rewrite clean_char_idempotent, IH.
Qed.

Lemma all_chars_append p a b :
  all_chars p (a +:+ b) = all_chars p a && all_chars p b.
Proof. induction a as [|c a IH]; [reflexivity|]. simpl. now rewrite IH, andb_assoc. Qed.

Lemma length_append a b : String.length (a +:+ b) = String.length a + String.length b.
Proof. induction a as [|c a IH]; [reflexivity|]. simpl. now rewrite IH. Qed.

Lemma append_assoc a b c : (a +:+ b) +:+ c = a +:+ (b +:+ c).
Proof.
  induction a as [|x a IH]; [reflexivity|].
  change (String x ((a +:+ b) +:+ c) = String x (a +:+ (b +:+ c))). now rewrite IH.
Qed.

Lemma append_inv_tail a b r : a +:+ r = b +:+ r -> a = b.
Proof.
  revert b. induction a as [|x a IH]; intros [|y b] H.
  - reflexivity.
  - apply (f_equal String.length) in H. rewrite !length_append in H. simpl in H. lia.
  - apply (f_equal String.length) in H. rewrite !length_append in H. simpl in H. lia.
  - change (String x (a +:+ r) = String y (b +:+ r)) in H.
    injection H as -> H. f_equal. now apply IH.
Qed.

Lemma resolution_part_chars variant :
  all_chars file_char (resolution_part variant) = true
  /\ 1 <= String.length (resolution_part variant).
Proof.
  unfold resolution_part, or_else. destruct (resolution variant) as [r|]; simpl.
  - unfold truthy. destruct (String.eqb_spec (clean r) "") as [He|Hne]; simpl.
    + split; [reflexivity|lia].
    + split; [apply clean_all_chars|].
      destruct (clean r); [congruence|simpl; lia].
  - split; [reflexivity|lia].
Qed.

Lemma clean_empty r : clean r = "" <-> r = "".
Proof.
  split; [|now intros ->]. intros H. apply (f_equal String.length) in H.
  rewrite clean_length in H. destruct r; [reflexivity|discriminate].
Qed.

Lemma resolution_part_present variant r :
  resolution variant = Some r -> r <> "" -> resolution_part variant = clean r.
Proof.
  intros Hr Hne. unfold resolution_part, or_else. rewrite Hr. simpl.
  unfold truthy. destruct (String.eqb_spec (clean r) "") as [He|_]; [|reflexivity].
  exfalso. apply Hne. exact (proj1 (clean_empty r) He).
Qed.

(** X3.  A download file name is the cleaned title, an underscore, the
    resolution part, a dot and the variant's format as it is.  The
    resolution part is the cleaned resolution when the variant has a
    non-empty one and [video] otherwise, so it is never empty.  What stands
    before the dot, the stem, consists of lower-case ASCII letters, digits
    and underscores only (so it holds no dot, slash, backslash or space)
    and is at least two characters longer than the title.  For the title
    [My Clip] and a [1080p] variant of format [mp4] the name is
    [my_clip_1080p.mp4]. *)
Theorem download_filename_stem (title : string) (variant : VideoVariant) :
  (forall r, resolution variant = Some r -> r <> "" ->
     getDownloadFilename title variant
     = clean title +:+ "_" +:+ clean r +:+ "." +:+ format variant)
  /\ (resolution variant = None \/ resolution variant = Some "" ->
      getDownloadFilename title variant
      = clean title +:+ "_" +:+ "video" +:+ "." +:+ format variant)
  /\ (exists stem,
        getDownloadFilename title variant = stem +:+ "." +:+ format variant
        /\ all_chars file_char stem = true
        /\ String.length title + 2 <= String.length stem
        /\ (resolution variant = None \/ resolution variant = Some "" ->
            stem = clean title +:+ "_video")
        /\ (forall r, resolution variant = Some r -> r <> "" ->
            stem = clean title +:+ "_" +:+ clean r))
  /\ getDownloadFilename "My Clip"
       (mkVariant "https://cdn.test/v.mp4" "mp4" (Some "1080p") None None)
     = "my_clip_1080p.mp4"
  /\ getDownloadFilename "Q&A: Part 2"
       (mkVariant "https://cdn.test/v.m3u8" "m3u8" (Some "Audio Only") None None)
     = "q_a__part_2_audio_only.m3u8".
Proof.
  assert (Hname : getDownloadFilename title variant
                  = clean title +:+ "_" +:+ resolution_part variant
                    +:+ "." +:+ format variant) by reflexivity.
  split; [|split; [|split; [|split; reflexivity]]].
  - intros r Hr Hne. rewrite Hname. now rewrite (resolution_part_present variant r Hr Hne).
  - intros [H|H]; rewrite Hname; unfold resolution_part; rewrite H; reflexivity.
  - exists (clean title +:+ "_" +:+ resolution_part variant).
    destruct (resolution_part_chars variant) as [Hc Hl].
    split; [|split; [|split; [|split]]].
    + rewrite Hname. now rewrite !append_assoc.
    + rewrite !all_chars_append, clean_all_chars, Hc. reflexivity.
    + rewrite !length_append, clean_length. simpl. lia.
    + intros [H|H]; unfold resolution_part; rewrite H; reflexivity.
    + intros r Hr Hne. now rewrite (resolution_part_present variant r Hr Hne).
Qed.

Lemma download_filename_stem_witness :
  let variant := mkVariant "https://cdn.test/v.mp4" "mp4" (Some "720p HD") None None in
  resolution variant = Some "720p HD" /\ "720p HD" <> ""
  /\ getDownloadFilename "Intro (v2)" variant
     = clean "Intro (v2)" +:+ "_" +:+ clean "720p HD" +:+ "." +:+ "mp4"
  /\ getDownloadFilename "Intro (v2)" variant = "intro__v2__720p_hd.mp4".
Proof.
  cbv zeta.
  assert (Hne : "720p HD" <> "") by discriminate.
  split; [reflexivity|]. split; [exact Hne|]. split; [|reflexivity].
  exact (proj1 (download_filename_stem "Intro (v2)"
                  (mkVariant "https://cdn.test/v.mp4" "mp4" (Some "720p HD") None None))
           "720p HD" eq_refl Hne).
Defined.

(** X4.  For one variant, two titles get the same file name exactly when
    they clean to the same string; cleaning twice is cleaning once, so a
    title and its cleaned form share their name, as do titles that differ
    in letter case or in which characters stand between the letters and
    digits. *)
Theorem download_filename_collisions (variant : VideoVariant) :
  (forall t t',
      getDownloadFilename t variant = getDownloadFilename t' variant
      <-> clean t = clean t')
  /\ (forall t, getDownloadFilename (clean t) variant = getDownloadFilename t variant)
  /\ getDownloadFilename "My Video: Part 1" variant
     = getDownloadFilename "my_video__part-1" variant.
Proof.
  assert (H : forall t t',
             getDownloadFilename t variant = getDownloadFilename t' variant
             <-> clean t = clean t').
  { intros t t'. unfold getDownloadFilename. split.
    - apply append_inv_tail.
    - now intros ->. }
  split; [exact H|]. split.
  - intros t. apply H. apply clean_idempotent.
  - apply H. reflexivity.
Qed.

(** *** Invariants of the signals *)

Lemma limitedHistory_bounded u history :
  List.NoDup history -> bounded (limitedHistory u history).
Proof.
  intros Hnd. split.
  - rewrite ComponentFacts.limitedHistory_cons. constructor.
    + intros H. apply ComponentFacts.firstn_In, filter_In in H as [_ H].
      now rewrite String.eqb_refl in H.
    + apply ComponentFacts.firstn_NoDup. now apply List.NoDup_filter.
  - unfold limitedHistory. apply firstn_le_length.
Qed.

(** Case analysis on what an event handler does. *)
Ltac handler_cases e :=
  destruct e;
  try match goal with o : CallOutcome |- _ => destruct o as [[?|?]|?] end;
  unfold handle, submit, loadHistory, onUrlChange, closeModal, settle, updateHistory,
    clearHistory, setItem, removeItem;
  cbn [fst snd];
  repeat (match goal with
          | |- context [if ?b then _ else _] => destruct b eqn:?
          | |- context [match ?x with _ => _ end] => destruct x eqn:?
          end; cbn [fst snd] in *).

Section Invariants.
Variable URL : URLConstructor.

Lemma run_invariant (P : State * Storage -> Prop) :
  (forall e w, P w -> P (handle URL e w)) ->
  forall es w, P w -> P (run URL es w).
Proof.
  intros Hstep es. induction es as [|e rest IH]; intros w Hw; [exact Hw|].
  simpl. apply IH. now apply Hstep.
Qed.

Lemma run_app es1 es2 w : run URL (es1 ++ es2) w = run URL es2 (run URL es1 w).
Proof. unfold run. apply fold_left_app. Qed.

Lemma submit_urlHistory s : urlHistory (fst (submit URL s)) = urlHistory s.
Proof. unfold submit. destruct (isValidUrl URL (url s)); reflexivity. Qed.

Lemma submit_modal s :
  isModalOpen (fst (submit URL s)) = isModalOpen s
  /\ selectedVideoGroup (fst (submit URL s)) = selectedVideoGroup s
  /\ copiedUrl (fst (submit URL s)) = copiedUrl s.
Proof. unfold submit. destruct (isValidUrl URL (url s)); repeat split. Qed.

Lemma submit_error s : error (fst (submit URL s)) <> Some "".
Proof. unfold submit. destruct (isValidUrl URL (url s)); simpl; discriminate. Qed.

Lemma handle_available e w : available (snd (handle URL e w)) = available (snd w).
Proof.
  destruct w as [s ls]. cbn [snd]. handler_cases e; simpl; congruence.
Qed.

Lemma handle_history_shape e w : history_shape w -> history_shape (handle URL e w).
Proof.
  destruct w as [s ls]. unfold history_shape. cbn [fst snd]. intros [Hm Hs].
  assert (Hempty : bounded []) by (split; [constructor|simpl; lia]).
  handler_cases e; simpl;
    try (split; [first [assumption | now apply Hs
                       | apply limitedHistory_bounded; exact (proj1 Hm)]|]);
    try assumption;
    try discriminate;
    try (intros h Hh; apply Hs; congruence);
    try (intros h Hh; injection Hh as <-;
         apply limitedHistory_bounded; exact (proj1 Hm)).
Qed.

Lemma handle_mirrored e w : mirrored w -> mirrored (handle URL e w).
Proof.
  destruct w as [s ls]. unfold mirrored. cbn [fst snd]. intros Hm.
  handler_cases e; simpl in *; try assumption; try congruence;
    try (intros _; now left); try (intros _; now right).
  intros _. destruct (Hm eq_refl) as [H | [_ H]]; [congruence|now right].
Qed.

Lemma handle_error e w :
  error (fst w) <> Some "" -> error (fst (handle URL e w)) <> Some "".
Proof.
  destruct w as [s ls]. cbn [fst]. intros He.
  handler_cases e; simpl; try assumption; try discriminate;
    intros H; injection H as H; revert H; now apply ComponentFacts.or_else_truthy.
Qed.

End Invariants.

(** X5.  Whatever events are handled, in whatever order, a history that
    is free of duplicates and at most 10 long stays so, in memory and in the
    storage, provided the list found in the storage was so. *)
Theorem history_stays_bounded URL (es : list Event) (w : State * Storage) :
  history_shape w -> history_shape (run URL es w).
Proof. apply run_invariant. intros e w'. apply handle_history_shape. Qed.

Lemma history_stays_bounded_witness :
  let w := run WHATWG.URL
             [NgOnInit; Settled "https://a.test" (Returns (Resolved [Examples.hit]));
              FindVideos; Settled "https://b.test" (Returns (Resolved []));
              Settled "https://a.test" (Returns (Resolved [Examples.hit]))]
             (Examples.typed "https://a.test", Examples.empty_storage) in
  history_shape (Examples.typed "https://a.test", Examples.empty_storage)
  /\ history_shape w
  /\ urlHistory (fst w) = ["https://a.test"; "https://b.test"].
Proof.
  cbv zeta.
  assert (H : history_shape (Examples.typed "https://a.test", Examples.empty_storage)).
  { split; [split; [constructor|simpl; lia]|]. simpl. discriminate. }
  split; [exact H|]. split; [|reflexivity].
  exact (history_stays_bounded WHATWG.URL _ _ H).
Defined.

(** X6.  After [ngOnInit] on a component whose history is empty, and
    whatever is handled next, a storage that works holds exactly the
    history in memory, so that loading it into a new component gives that
    history back; a storage that does not work is never changed and a new
    component starts with an empty history. *)
Theorem reload_restores_history URL (s : State) (ls : Storage) (es : list Event) :
  urlHistory s = [] ->
  let w := run URL (NgOnInit :: es) (s, ls) in
  (available ls = true ->
   fst (loadHistory (AppComponent.initial, snd w))
   = set_urlHistory (urlHistory (fst w)) AppComponent.initial)
  /\ (available ls = false ->
      snd w = ls /\ fst (loadHistory (AppComponent.initial, snd w)) = AppComponent.initial).
Proof.
  intros Hs. cbv zeta. split.
  - intros Ha.
    assert (Hm : mirrored (handle URL NgOnInit (s, ls))).
    { intros _. simpl. unfold loadHistory. rewrite Ha.
      destruct (item ls) as [h|] eqn:Hi; simpl; [now left|right; now rewrite Hi]. }
    pose proof (run_invariant URL mirrored (handle_mirrored URL) es _ Hm) as Hm'.
    pose proof (run_invariant URL (fun w => available (snd w) = true)
                  (fun e w H => eq_trans (handle_available URL e w) H)
                  (NgOnInit :: es) (s, ls) Ha) as Ha'.
    change (run URL (NgOnInit :: es) (s, ls))
      with (run URL es (handle URL NgOnInit (s, ls))).
    change (run URL (NgOnInit :: es) (s, ls))
      with (run URL es (handle URL NgOnInit (s, ls))) in Ha'.
    destruct (run URL es (handle URL NgOnInit (s, ls))) as [s' ls'].
    unfold mirrored in Hm'. simpl in *. unfold loadHistory. simpl. rewrite Ha'.
    destruct (Hm' Ha') as [-> | [-> ->]]; reflexivity.
  - intros Ha.
    pose proof (run_invariant URL (fun w => snd w = ls)) as Hinv.
    assert (Hsame : snd (run URL (NgOnInit :: es) (s, ls)) = ls).
    { apply Hinv; [|reflexivity]. intros e [s' ls'] H. simpl in H. subst ls'.
      handler_cases e; simpl; congruence. }
    rewrite Hsame. split; [reflexivity|]. unfold loadHistory. simpl. now rewrite Ha.
Qed.

Lemma reload_restores_history_witness :
  let w := run WHATWG.URL
             [NgOnInit; Settled "https://b.test" (Returns (Resolved [Examples.hit]));
              OnUrlChange "x"; Settled "https://c.test" (Returns (Resolved []))]
             (Examples.typed "https://b.test",
              mkStorage (Some ["https://a.test"]) true) in
  urlHistory (Examples.typed "https://b.test") = []
  /\ urlHistory (fst w) = ["https://c.test"; "https://b.test"; "https://a.test"]
  /\ fst (loadHistory (AppComponent.initial, snd w))
     = set_urlHistory (urlHistory (fst w)) AppComponent.initial.
Proof.
  cbv zeta. split; [reflexivity|]. split; [reflexivity|].
  exact (proj1 (reload_restores_history WHATWG.URL (Examples.typed "https://b.test")
                  (mkStorage (Some ["https://a.test"]) true)
                  [Settled "https://b.test" (Returns (Resolved [Examples.hit]));
                   OnUrlChange "x"; Settled "https://c.test" (Returns (Resolved []))]
                  eq_refl) eq_refl).
Defined.

(** X7.  The [error] signal never holds the empty string, so typing in the
    search box always clears it: from a state whose error is not the empty
    string, after any events, [onUrlChange] leaves no error and the typed
    text in [url]. *)
Theorem typing_clears_the_error URL (s : State) (ls : Storage) (es : list Event)
    (newUrl : string) :
  error s <> Some "" ->
  let w := handle URL (OnUrlChange newUrl) (run URL es (s, ls)) in
  error (fst w) = None /\ url (fst w) = newUrl.
Proof.
  intros He. cbv zeta.
  pose proof (run_invariant URL (fun w => error (fst w) <> Some "")
                (handle_error URL) es (s, ls) He) as H.
  destruct (run URL es (s, ls)) as [s' ls']. simpl in *. unfold onUrlChange. cbv zeta.
  change (error (set_url newUrl s')) with (error s').
  destruct (error s') as [m|] eqn:Hm; [|split; [exact Hm|reflexivity]].
  unfold truthy. destruct (String.eqb_spec m "") as [->|Hne]; [congruence|].
  split; reflexivity.
Qed.

Lemma typing_clears_the_error_witness :
  let w := handle WHATWG.URL (OnUrlChange "https://x.test")
             (run WHATWG.URL [FindVideos] (Examples.typed "ftp://x.test",
                                           Examples.empty_storage)) in
  error (Examples.typed "ftp://x.test") <> Some ""
  /\ error (fst (run WHATWG.URL [FindVideos]
                   (Examples.typed "ftp://x.test", Examples.empty_storage)))
     = Some validation_message
  /\ error (fst w) = None /\ url (fst w) = "https://x.test".
Proof.
  cbv zeta.
  assert (H : error (Examples.typed "ftp://x.test") <> Some "") by discriminate.
  split; [exact H|]. split; [vm_compute; reflexivity|].
  exact (typing_clears_the_error WHATWG.URL (Examples.typed "ftp://x.test")
           Examples.empty_storage [FindVideos] "https://x.test" H).
Defined.



(** *** The copied indicator *)

Section Copied.
Variable URL : URLConstructor.

Lemma handle_leaves_copied e w :
  touches_copied e = false -> copiedUrl (fst (handle URL e w)) = copiedUrl (fst w).
Proof.
  destruct w as [s ls]. cbn [fst]. intros He.
  handler_cases e; simpl in *; try reflexivity; discriminate.
Qed.

Lemma run_leaves_copied es w :
  leaves_copied es = true -> copiedUrl (fst (run URL es w)) = copiedUrl (fst w).
Proof.
  revert w. induction es as [|e rest IH]; intros w H; [reflexivity|].
  simpl in H. apply andb_true_iff in H as [He Hrest]. apply negb_true_iff in He.
  simpl. rewrite IH by exact Hrest. now apply handle_leaves_copied.
Qed.
End Copied.

(** X9.  Copy one URL, then another, with any events between and after
    that are not clipboard callbacks or the closing of the modal.  The timer
    of the first copy then leaves the indicator of the second as it is when
    the two URLs differ; when they are the same URL it clears the indicator,
    before the second copy's own two seconds are over.  The timer of the
    second copy leaves the indicator empty in both cases. *)
Theorem stale_timer_and_the_copied_indicator URL (w : State * Storage)
    (a b : string) (es1 es2 : list Event) :
  leaves_copied es1 = true -> leaves_copied es2 = true ->
  let w1 := run URL (ClipboardWritten a :: es1 ++ ClipboardWritten b :: es2
                     ++ [CopiedTimeout a]) w in
  copiedUrl (fst w1) = (if String.eqb b a then "" else b)
  /\ copiedUrl (fst (handle URL (CopiedTimeout b) w1)) = "".
Proof.
  intros H1 H2. cbv zeta.
  change (run URL (ClipboardWritten a :: es1 ++ ClipboardWritten b :: es2
                   ++ [CopiedTimeout a]) w)
    with (run URL (es1 ++ ClipboardWritten b :: es2 ++ [CopiedTimeout a])
            (handle URL (ClipboardWritten a) w)).
  rewrite run_app.
  change (run URL (ClipboardWritten b :: es2 ++ [CopiedTimeout a]) ?x)
    with (run URL (es2 ++ [CopiedTimeout a]) (handle URL (ClipboardWritten b) x)).
  rewrite run_app.
  set (w0 := run URL es1 (handle URL (ClipboardWritten a) w)).
  assert (Hb : copiedUrl (fst (run URL es2 (handle URL (ClipboardWritten b) w0))) = b).
  { rewrite run_leaves_copied by exact H2. destruct w0 as [s0 ls0]. reflexivity. }
  destruct (run URL es2 (handle URL (ClipboardWritten b) w0)) as [s2 ls2].
  simpl in Hb. simpl. rewrite Hb.
  destruct (String.eqb_spec b a) as [->|Hne]; simpl.
  - split; [reflexivity|]. clear Hb. clearbody w0. destruct a; reflexivity.
  - split; [exact Hb|]. rewrite Hb, String.eqb_refl. reflexivity.
Qed.

Lemma stale_timer_witness :
  let w1 := run WHATWG.URL
              (ClipboardWritten "https://cdn.test/a.mp4"
               :: [SetSortBy by_title]
               ++ ClipboardWritten "https://cdn.test/b.mp4"
               :: [OnUrlChange "x"] ++ [CopiedTimeout "https://cdn.test/a.mp4"])
              (Examples.typed "", Examples.empty_storage) in
  leaves_copied [SetSortBy by_title] = true
  /\ leaves_copied [OnUrlChange "x"] = true
  /\ copiedUrl (fst w1) = "https://cdn.test/b.mp4"
  /\ copiedUrl (fst (handle WHATWG.URL (CopiedTimeout "https://cdn.test/b.mp4") w1)) = "".
Proof.
  cbv zeta. split; [reflexivity|]. split; [reflexivity|].
  exact (stale_timer_and_the_copied_indicator WHATWG.URL
           (Examples.typed "", Examples.empty_storage)
           "https://cdn.test/a.mp4" "https://cdn.test/b.mp4"
           [SetSortBy by_title] [OnUrlChange "x"] eq_refl eq_refl).
Defined.

(** *** The URLs of the history *)

Lemma limitedHistory_In h u history :
  In h (limitedHistory u history) -> h = u \/ In h history.
Proof.
  rewrite ComponentFacts.limitedHistory_cons. intros [<-|H]; [now left|].
  apply ComponentFacts.firstn_In, filter_In in H. right. tauto.
Qed.

Lemma remove_first_Forall (P : string -> Prop) u pending :
  Forall P pending -> Forall P (remove_first u pending).
Proof.
  induction 1 as [|p rest Hp Hrest IH]; simpl; [constructor|].
  destruct (String.eqb p u); [exact Hrest|now constructor].
Qed.

Section Validity.
Variable URL : URLConstructor.

Lemma limitedHistory_valid u history :
  valid URL u -> Forall (valid URL) history -> Forall (valid URL) (limitedHistory u history).
Proof.
  intros Hu Hh. apply List.Forall_forall. intros h Hin.
  apply limitedHistory_In in Hin as [->|Hin]; [exact Hu|].
  rewrite List.Forall_forall in Hh. now apply Hh.
Qed.

Lemma issued_valid s : Forall (valid URL) (issued (snd (submit URL s))).
Proof.
  unfold submit. destruct (isValidUrl URL (url s)) eqn:H; simpl; repeat constructor.
  exact H.
Qed.

Lemma handle_valid e w pending :
  match e with Settled u _ => valid URL u | _ => True end ->
  all_valid URL w pending -> all_valid URL (handle URL e w) pending.
Proof.
  destruct w as [s ls]. unfold all_valid. cbn [fst snd]. intros He (Hm & Hs & Hp).
  assert (Hnil : Forall (valid URL) []) by constructor.
  handler_cases e; simpl;
    (split; [|split; [|exact Hp]]);
    try assumption; try discriminate;
    try (now apply Hs);
    try (intros h Hh; apply Hs; congruence);
    try (now apply limitedHistory_valid);
    try (intros h Hh; injection Hh as <-; now apply limitedHistory_valid).
Qed.

Lemma track_valid es w pending w' pending' :
  track URL es w pending = Some (w', pending') ->
  all_valid URL w pending -> all_valid URL w' pending'.
Proof.
  revert w pending. induction es as [|e rest IH]; intros w pending Ht Hv.
  - simpl in Ht. injection Ht as <- <-. exact Hv.
  - assert (Hext : forall more, Forall (valid URL) more ->
                     all_valid URL w (pending ++ more)).
    { intros more Hmore. destruct Hv as (Hm & Hs & Hp).
      split; [exact Hm|]. split; [exact Hs|]. apply Forall_app. now split. }
    destruct e; simpl in Ht;
      try (match type of Ht with
           | track _ _ (handle _ ?e _) _ = _ =>
               apply (IH _ _ Ht); exact (handle_valid e w pending I Hv)
           end).
    + apply (IH _ _ Ht). apply (handle_valid FindVideos w _ I).
      apply Hext, issued_valid.
    + apply (IH _ _ Ht). apply (handle_valid (LoadFromHistory u) w _ I).
      apply Hext, issued_valid.
    + destruct (existsb (String.eqb urlToSearch) pending) eqn:Hin; [|discriminate].
      apply ComponentFacts.existsb_eqb_In in Hin.
      assert (Hu : valid URL urlToSearch).
      { destruct Hv as (_ & _ & Hp). rewrite List.Forall_forall in Hp. now apply Hp. }
      apply (IH _ _ Ht).
      destruct (handle_valid (Settled urlToSearch o) w pending Hu Hv) as (Hm & Hs & Hp).
      split; [exact Hm|]. split; [exact Hs|]. now apply remove_first_Forall.
Qed.
End Validity.

(** X10.  Follow the calls in flight: a submission that passes validation
    issues a call, and the continuation of a search runs for a pending call
    only.  If the history in memory, the persisted one and the pending calls
    hold only URLs that pass validation, they still do after any such
    events; so choosing an entry of the history never ends in the
    validation message: it starts a search for that entry. *)
Theorem history_entries_are_valid URL (es : list Event) (w w' : State * Storage)
    (pending pending' : list string) :
  track URL es w pending = Some (w', pending') ->
  all_valid URL w pending ->
  all_valid URL w' pending'
  /\ forall u, In u (urlHistory (fst w')) ->
       submit URL (set_url u (fst w')) = (begin_search (set_url u (fst w')), Some u).
Proof.
  intros Ht Hv. pose proof (track_valid URL es w pending w' pending' Ht Hv) as Hv'.
  split; [exact Hv'|]. intros u Hu. destruct Hv' as (Hm & _ & _).
  rewrite List.Forall_forall in Hm.
  exact (ComponentFacts.submit_accepted URL (set_url u (fst w')) (Hm u Hu)).
Qed.

Lemma history_entries_are_valid_witness :
  let es := [NgOnInit; FindVideos; OnUrlChange "not a url"; FindVideos;
             Settled "https://a.test" (Returns (Resolved [Examples.hit]));
             LoadFromHistory "https://b.test"] in
  let w := (Examples.typed "https://a.test", mkStorage (Some ["https://b.test"]) true) in
  let w' := run WHATWG.URL es w in
  track WHATWG.URL es w [] = Some (w', ["https://b.test"])
  /\ all_valid WHATWG.URL w []
  /\ urlHistory (fst w') = ["https://a.test"; "https://b.test"]
  /\ all_valid WHATWG.URL w' ["https://b.test"].
Proof.
  cbv zeta.
  assert (Ht : track WHATWG.URL
                 [NgOnInit; FindVideos; OnUrlChange "not a url"; FindVideos;
                  Settled "https://a.test" (Returns (Resolved [Examples.hit]));
                  LoadFromHistory "https://b.test"]
                 (Examples.typed "https://a.test", mkStorage (Some ["https://b.test"]) true)
                 []
               = Some (run WHATWG.URL
                         [NgOnInit; FindVideos; OnUrlChange "not a url"; FindVideos;
                          Settled "https://a.test" (Returns (Resolved [Examples.hit]));
                          LoadFromHistory "https://b.test"]
                         (Examples.typed "https://a.test",
                          mkStorage (Some ["https://b.test"]) true),
                       ["https://b.test"])) by (vm_compute; reflexivity).
  assert (Hv : all_valid WHATWG.URL
                 (Examples.typed "https://a.test", mkStorage (Some ["https://b.test"]) true)
                 []).
  { split; [constructor|]. split; [|constructor].
    simpl. intros h Hh. injection Hh as <-. constructor; [|constructor].
    vm_compute. reflexivity. }
  split; [exact Ht|]. split; [exact Hv|]. split; [vm_compute; reflexivity|].
  exact (proj1 (history_entries_are_valid WHATWG.URL _ _ _ _ _ Ht Hv)).
Defined.

(** *** A search run to completion *)

Section Completed.
Variable URL : URLConstructor.
Context {ServiceState : Type}.
Variable findVideosInUrl : string -> ServiceState -> CallOutcome * ServiceState.

Lemma findVideos_resolved (w : World ServiceState) gs st' :
  isValidUrl URL (url (ui w)) = true ->
  findVideosInUrl (url (ui w)) (service w) = (Returns (Resolved gs), st') ->
  findVideos URL findVideosInUrl w
  = mkWorld
      (set_isLoading false
         (set_urlHistory (limitedHistory (url (ui w)) (urlHistory (ui w)))
            (set_videoGroups gs (begin_search (ui w)))))
      (setItem (limitedHistory (url (ui w)) (urlHistory (ui w))) (storage w))
      st'.
Proof.
  intros Hv Hc. unfold findVideos.
  rewrite (ComponentFacts.submit_accepted URL (ui w) Hv), Hc. reflexivity.
Qed.

Lemma findVideos_failed (w : World ServiceState) o e st' :
  isValidUrl URL (url (ui w)) = true ->
  findVideosInUrl (url (ui w)) (service w) = (o, st') ->
  o = Throws e \/ o = Returns (Rejected e) ->
  findVideos URL findVideosInUrl w
  = mkWorld
      (set_isLoading false
         (set_error (Some (or_else (message e) unknown_error)) (begin_search (ui w))))
      (storage w) st'.
Proof.
  intros Hv Hc Ho. unfold findVideos.
  rewrite (ComponentFacts.submit_accepted URL (ui w) Hv), Hc.
  destruct Ho as [-> | ->]; reflexivity.
Qed.

Lemma findVideos_rejected (w : World ServiceState) :
  isValidUrl URL (url (ui w)) = false ->
  findVideos URL findVideosInUrl w
  = mkWorld (set_error (Some validation_message) (ui w)) (storage w) (service w).
Proof.
  intros Hv. unfold findVideos.
  now rewrite (ComponentFacts.submit_rejected URL (ui w) Hv).
Qed.
End Completed.

(** X11.  After a search whose URL passes validation and whose call is
    resolved, the component shows what the call returned: [videoGroups] is
    the returned list, there is no error, loading is over, the category
    filter is back to [all] while the sort key is the one chosen before, so
    the view holds every returned group whatever category was selected
    earlier; the URL is at the head of the history. *)
Theorem successful_search URL (ServiceState : Type)
    (findVideosInUrl : string -> ServiceState -> CallOutcome * ServiceState)
    (w : World ServiceState) (gs : list VideoGroup) (st' : ServiceState) :
  isValidUrl URL (url (ui w)) = true ->
  findVideosInUrl (url (ui w)) (service w) = (Returns (Resolved gs), st') ->
  let w' := findVideos URL findVideosInUrl w in
  videoGroups (ui w') = gs
  /\ error (ui w') = None /\ isLoading (ui w') = false /\ hasSearched (ui w') = true
  /\ selectedCategory (ui w') = "all" /\ sortBy (ui w') = sortBy (ui w)
  /\ (forall Date_getTime localeCompare,
        Permutation (filteredVideoGroups Date_getTime localeCompare (ui w')) gs)
  /\ urlHistory (ui w') = limitedHistory (url (ui w)) (urlHistory (ui w))
  /\ service w' = st'.
Proof.
  intros Hv Hc. cbv zeta. rewrite (findVideos_resolved URL findVideosInUrl w gs st' Hv Hc).
  repeat split. intros Date_getTime localeCompare.
  match goal with
  | |- Permutation (filteredVideoGroups _ _ ?s) _ =>
      exact (ComponentFacts.view_all Date_getTime localeCompare s eq_refl)
  end.
Qed.

Lemma successful_search_witness :
  let w := mkWorld (set_selectedCategory "Vlog" (Examples.typed "https://a.test"))
             Examples.empty_storage GeminiService.initial in
  let w' := findVideos WHATWG.URL
              (Examples.service [Examples.hit; Examples.vlog]
                 (Examples.answers Examples.reply)) w in
  isValidUrl WHATWG.URL (url (ui w)) = true
  /\ videoGroups (ui w') = [Examples.hit; Examples.vlog]
  /\ selectedCategory (ui w') = "all"
  /\ urlHistory (ui w') = ["https://a.test"].
Proof.
  cbv zeta.
  assert (Hv : isValidUrl WHATWG.URL
                 (url (set_selectedCategory "Vlog" (Examples.typed "https://a.test")))
               = true) by (vm_compute; reflexivity).
  split; [exact Hv|].
  destruct (successful_search WHATWG.URL GeminiService.ServiceState
              (Examples.service [Examples.hit; Examples.vlog]
                 (Examples.answers Examples.reply))
              (mkWorld (set_selectedCategory "Vlog" (Examples.typed "https://a.test"))
                 Examples.empty_storage GeminiService.initial)
              [Examples.hit; Examples.vlog]
              (GeminiService.mkService
                 {[ "https://a.test" := [Examples.hit; Examples.vlog] ]} 1)
              Hv)
    as (H1 & _ & _ & _ & H2 & _ & _ & H3 & _).
  - vm_compute. reflexivity.
  - split; [exact H1|]. split; [exact H2|]. exact H3.
Defined.

(** X12.  Only a search that succeeds is recorded: when the submission is
    turned away by the validation, or the call throws or is rejected, the
    history in memory and the storage are what they were. *)
Theorem only_success_is_recorded URL (ServiceState : Type)
    (findVideosInUrl : string -> ServiceState -> CallOutcome * ServiceState)
    (w : World ServiceState) :
  isValidUrl URL (url (ui w)) = false
  \/ (forall gs, fst (findVideosInUrl (url (ui w)) (service w)) <> Returns (Resolved gs)) ->
  let w' := findVideos URL findVideosInUrl w in
  urlHistory (ui w') = urlHistory (ui w) /\ storage w' = storage w.
Proof.
  intros H. cbv zeta. destruct (isValidUrl URL (url (ui w))) eqn:Hv.
  - destruct H as [H|H]; [discriminate|].
    destruct (findVideosInUrl (url (ui w)) (service w)) as [o st'] eqn:Hc.
    simpl in H. destruct o as [[gs|e]|e].
    + now destruct (H gs).
    + rewrite (findVideos_failed URL findVideosInUrl w _ e st' Hv Hc (or_intror eq_refl)).
      split; reflexivity.
    + rewrite (findVideos_failed URL findVideosInUrl w _ e st' Hv Hc (or_introl eq_refl)).
      split; reflexivity.
  - rewrite (findVideos_rejected URL findVideosInUrl w Hv). split; reflexivity.
Qed.

Lemma only_success_is_recorded_witness :
  let w := mkWorld (set_urlHistory ["https://b.test"] (Examples.typed "https://a.test"))
             (mkStorage (Some ["https://b.test"]) true) GeminiService.initial in
  let w' := findVideos WHATWG.URL (Examples.service [] Examples.unavailable) w in
  (forall gs, fst (Examples.service [] Examples.unavailable (url (ui w)) (service w))
              <> Returns (Resolved gs))
  /\ error (ui w') = Some GeminiService.failure_message
  /\ urlHistory (ui w') = ["https://b.test"]
  /\ storage w' = mkStorage (Some ["https://b.test"]) true.
Proof.
  cbv zeta.
  assert (H : forall gs,
             fst (Examples.service [] Examples.unavailable "https://a.test"
                    GeminiService.initial) <> Returns (Resolved gs))
    by (intros gs; discriminate).
  split; [exact H|]. split; [reflexivity|].
  exact (only_success_is_recorded WHATWG.URL GeminiService.ServiceState
           (Examples.service [] Examples.unavailable)
           (mkWorld (set_urlHistory ["https://b.test"] (Examples.typed "https://a.test"))
              (mkStorage (Some ["https://b.test"]) true) GeminiService.initial)
           (or_intror H)).
Defined.

End ComponentCoverage.

(* ===================================================================== *)
(** ** The component and the service together *)
(* ===================================================================== *)

Module ApplicationCoverage.
Import Model.
Import AppComponent.

Lemma limitedHistory_idempotent u history :
  limitedHistory u (limitedHistory u history) = limitedHistory u history.
Proof.
  rewrite !ComponentFacts.limitedHistory_cons. f_equal. simpl.
  rewrite String.eqb_refl. simpl.
  rewrite ComponentFacts.filter_other_than_absent.
  - rewrite firstn_firstn. reflexivity.
  - intros H. apply ComponentFacts.firstn_In, filter_In in H as [_ H].
    now rewrite String.eqb_refl in H.
Qed.

Lemma setItem_twice l ls : setItem l (setItem l ls) = setItem l ls.
Proof. unfold setItem. destruct (available ls) eqn:H; simpl; [reflexivity|now rewrite H]. Qed.

Section Together.
Variable URL : URLConstructor.
Variable trim : string -> string.
Variable JSON_parse : string -> option (list VideoGroup).

Lemma injected_eq genAI u st :
  Application.injected URL trim JSON_parse genAI u st
  = (Returns (fst (GeminiService.findVideosInUrl URL trim JSON_parse genAI u st)),
     snd (GeminiService.findVideosInUrl URL trim JSON_parse genAI u st)).
Proof.
  unfold Application.injected.
  now destruct (GeminiService.findVideosInUrl URL trim JSON_parse genAI u st).
Qed.

Lemma rejected_reason genAI u st e st' :
  GeminiService.findVideosInUrl URL trim JSON_parse genAI u st = (Rejected e, st') ->
  e = Error GeminiService.failure_message.
Proof. intros H. now apply ServiceFacts.resolve_rejected in H. Qed.

Lemma resolved_is_cached genAI u st gs st' :
  GeminiService.findVideosInUrl URL trim JSON_parse genAI u st = (Resolved gs, st') ->
  GeminiService.cache st' !! u = Some gs.
Proof.
  intros H. apply ServiceFacts.resolve_resolved in H as [[Hc ->] | (_ & _ & ->)].
  - exact Hc.
  - simpl. apply lookup_insert_eq.
Qed.
End Together.

(** X13.  With the service injected, the only messages the component ever
    puts in [error] after a search are the two fixed texts: the validation
    message when the input is turned away, the service's generic message
    when its call is rejected, and no message when it is resolved.  The
    fallback for a thrown value without a message is never shown, nor is
    any detail of what went wrong in the service. *)
Theorem shown_error_is_a_fixed_message URL trim JSON_parse genAI
    (w : World GeminiService.ServiceState) :
  let w' := Application.findVideos URL trim JSON_parse genAI w in
  error (ui w')
  = (if isValidUrl URL (url (ui w))
     then match fst (GeminiService.findVideosInUrl URL trim JSON_parse genAI
                       (url (ui w)) (service w)) with
          | Resolved _ => None
          | Rejected _ => Some GeminiService.failure_message
          end
     else Some validation_message)
  /\ error (ui w') <> Some unknown_error.
Proof.
  cbv zeta. unfold Application.findVideos.
  destruct (isValidUrl URL (url (ui w))) eqn:Hv.
  - pose proof (injected_eq URL trim JSON_parse genAI (url (ui w)) (service w)) as Hi.
    destruct (GeminiService.findVideosInUrl URL trim JSON_parse genAI
                (url (ui w)) (service w)) as [[gs|e] st'] eqn:Hc; simpl in Hi.
    + rewrite (ComponentCoverage.findVideos_resolved URL _ w gs st' Hv Hi).
      split; [reflexivity|discriminate].
    + rewrite (ComponentCoverage.findVideos_failed URL _ w _ e st' Hv Hi
                 (or_intror eq_refl)).
      apply rejected_reason in Hc. subst e. split; [reflexivity|discriminate].
  - rewrite (ComponentCoverage.findVideos_rejected URL _ w Hv).
    split; [reflexivity|discriminate].
Qed.

(** X14.  After a search that succeeded, choosing its URL from the history
    shows the same groups again without invoking the model, whatever the
    model would answer now: the groups, the service (cache and number of
    invocations), the history and the storage are those the first search
    left. *)
Theorem search_again_is_served_from_the_cache URL trim JSON_parse genAI genAI'
    (w : World GeminiService.ServiceState) :
  isValidUrl URL (url (ui w)) = true ->
  let w1 := Application.findVideos URL trim JSON_parse genAI w in
  error (ui w1) = None ->
  let w2 := Application.loadFromHistory URL trim JSON_parse genAI' (url (ui w)) w1 in
  videoGroups (ui w2) = videoGroups (ui w1)
  /\ error (ui w2) = None /\ isLoading (ui w2) = false
  /\ service w2 = service w1
  /\ urlHistory (ui w2) = urlHistory (ui w1)
  /\ storage w2 = storage w1.
Proof.
  intros Hv. cbv zeta. unfold Application.loadFromHistory, Application.findVideos.
  pose proof (injected_eq URL trim JSON_parse genAI (url (ui w)) (service w)) as Hi.
  destruct (GeminiService.findVideosInUrl URL trim JSON_parse genAI
              (url (ui w)) (service w)) as [[gs|e] st'] eqn:Hc; simpl in Hi.
  - rewrite (ComponentCoverage.findVideos_resolved URL _ w gs st' Hv Hi). intros _.
    pose proof (resolved_is_cached URL trim JSON_parse genAI _ _ _ _ Hc) as Hcached.
    pose proof (injected_eq URL trim JSON_parse genAI' (url (ui w)) st') as Hi'.
    rewrite (ServiceFacts.resolve_hit URL trim JSON_parse genAI' _ st' gs Hcached) in Hi'.
    simpl in Hi'.
    match goal with
    | |- context [findVideos URL ?svc ?w0] =>
        rewrite (ComponentCoverage.findVideos_resolved URL svc w0 gs st' Hv Hi')
    end.
    simpl. rewrite limitedHistory_idempotent, setItem_twice. repeat split.
  - rewrite (ComponentCoverage.findVideos_failed URL _ w _ e st' Hv Hi
               (or_intror eq_refl)).
    simpl. discriminate.
Qed.

Lemma search_again_witness :
  let w := mkWorld (Examples.typed "https://a.test") Examples.empty_storage
             GeminiService.initial in
  let w1 := Application.findVideos WHATWG.URL Examples.ascii_trim
              (Examples.parses_to [Examples.hit]) (Examples.answers Examples.reply) w in
  let w2 := Application.loadFromHistory WHATWG.URL Examples.ascii_trim
              (Examples.parses_to [Examples.hit]) Examples.unavailable
              "https://a.test" w1 in
  isValidUrl WHATWG.URL (url (ui w)) = true
  /\ error (ui w1) = None
  /\ videoGroups (ui w1) = [Examples.hit]
  /\ videoGroups (ui w2) = videoGroups (ui w1)
  /\ GeminiService.calls (service w2) = 1.
Proof.
  cbv zeta.
  assert (Hv : isValidUrl WHATWG.URL (url (Examples.typed "https://a.test")) = true)
    by (vm_compute; reflexivity).
  assert (He : error (ui (Application.findVideos WHATWG.URL Examples.ascii_trim
                            (Examples.parses_to [Examples.hit])
                            (Examples.answers Examples.reply)
                            (mkWorld (Examples.typed "https://a.test")
                               Examples.empty_storage GeminiService.initial))) = None)
    by (vm_compute; reflexivity).
  split; [exact Hv|]. split; [exact He|]. split; [vm_compute; reflexivity|].
  destruct (search_again_is_served_from_the_cache WHATWG.URL Examples.ascii_trim
              (Examples.parses_to [Examples.hit]) (Examples.answers Examples.reply)
              Examples.unavailable
              (mkWorld (Examples.typed "https://a.test") Examples.empty_storage
                 GeminiService.initial) Hv He)
    as (H1 & _ & _ & H2 & _).
  split; [exact H1|]. simpl url in H2. rewrite H2. vm_compute. reflexivity.
Defined.

(** X18.  The prompt holds the submitted URL as it is, between two fixed
    texts, so the prompt determines the URL: two URLs get the same prompt
    only if they are the same string, the string that keys the cache. *)
Theorem prompt_determines_the_url (u u' : string) :
  GeminiService.prompt u = GeminiService.prompt u' <-> u = u'.
Proof.
  split; [|now intros ->]. unfold GeminiService.prompt. intros H.
  apply (inj (String.append GeminiService.prompt_head)) in H.
  exact (ComponentCoverage.append_inv_tail u u' GeminiService.prompt_tail H).
Qed.

End ApplicationCoverage.

(* ===================================================================== *)
(** ** The view: categories, titles and dates *)
(* ===================================================================== *)

Module PresentationCoverage.
Import Model AppComponent ComponentSpec CoverageSpec.

(** *** [Array.prototype.sort] with a comparator that is an ordering *)

Section Sorted.
Context {A : Type}.
Variable cmp : A -> A -> number.
Variable P : A -> Prop.
Variable le : A -> A -> Prop.
Hypothesis le_of_cmp :
  forall a b, P a -> P b -> Qle_bool (SortCompare cmp a b) 0 = true -> le a b.
Hypothesis le_of_not :
  forall a b, P a -> P b -> Qle_bool (SortCompare cmp a b) 0 = false -> le b a.
Hypothesis le_trans :
  forall a b c, P a -> P b -> P c -> le a b -> le b c -> le a c.

Lemma insert_sorted_by x l :
  P x -> Forall P l -> StronglySorted le l -> StronglySorted le (insert cmp x l).
Proof.
  intros Hx Hl Hs. induction Hs as [|y rest Hs IH Hall]; simpl.
  - repeat constructor.
  - apply List.Forall_cons_iff in Hl as [Hy Hrest].
    destruct (Qle_bool (SortCompare cmp x y) 0) eqn:Hc.
    + apply le_of_cmp in Hc; [|assumption..]. constructor.
      * now constructor.
      * constructor; [exact Hc|]. apply List.Forall_forall. intros z Hz.
        rewrite List.Forall_forall in Hall, Hrest.
        apply (le_trans x y z); auto.
    + apply le_of_not in Hc; [|assumption..]. constructor; [now apply IH|].
      apply List.Forall_forall. intros z Hz.
      apply (Permutation_in _ (ComponentFacts.insert_perm cmp x rest)) in Hz.
      destruct Hz as [<-|Hz]; [exact Hc|].
      rewrite List.Forall_forall in Hall. now apply Hall.
Qed.

Lemma Array_sort_sorted_by l : Forall P l -> StronglySorted le (Array_sort cmp l).
Proof.
  induction l as [|x rest IH]; intros Hl; simpl.
  - constructor.
  - apply List.Forall_cons_iff in Hl as [Hx Hrest].
    apply insert_sorted_by; [exact Hx| |now apply IH].
    apply List.Forall_forall. intros z Hz.
    apply (Permutation_in _ (ComponentFacts.Array_sort_perm cmp rest)) in Hz.
    rewrite List.Forall_forall in Hrest. now apply Hrest.
Qed.
End Sorted.

Lemma Forall_filter_keep {A} (P : A -> Prop) f (l : list A) :
  Forall P l -> Forall P (List.filter f l).
Proof.
  intros H. apply List.Forall_forall. intros x Hx. apply filter_In in Hx as [Hx _].
  rewrite List.Forall_forall in H. now apply H.
Qed.

(** *** The collaborators of the examples are orderings *)

Lemma ordinal_compare_le a b :
  (Examples.ordinal_compare a b <= 0)%Q <-> String.le a b.
Proof.
  unfold Examples.ordinal_compare, String.le, String.leb.
  destruct (String.compare a b); simpl; split; intros H; try exact I;
    try discriminate; try (now destruct H).
Qed.

Lemma ordinal_compare_total a b :
  (0 < Examples.ordinal_compare a b)%Q -> (Examples.ordinal_compare b a <= 0)%Q.
Proof.
  unfold Examples.ordinal_compare. rewrite (String.compare_antisym b a).
  destruct (String.compare a b); simpl; intros H;
    try (vm_compute in H; discriminate H).
  vm_compute. discriminate.
Qed.

Lemma ordinal_compare_trans a b c :
  (Examples.ordinal_compare a b <= 0)%Q -> (Examples.ordinal_compare b c <= 0)%Q ->
  (Examples.ordinal_compare a c <= 0)%Q.
Proof.
  rewrite !ordinal_compare_le. intros H1 H2.
  exact (@transitivity _ String.le _ a b c H1 H2).
Qed.

(** X15.  Every category the list offers after the sentinel has something
    to show: selecting it gives a view that is not empty.  A category that
    is not offered, other than the empty string, gives an empty view; and
    the view for [all] is empty only when there are no groups. *)
Theorem listed_categories_have_groups Date_getTime localeCompare (s : State) :
  let view c := filteredVideoGroups Date_getTime localeCompare (set_selectedCategory c s) in
  (forall c, In c (tl (allCategories s)) -> view c <> [])
  /\ (forall c, c <> "" -> ~ In c (allCategories s) -> view c = [])
  /\ (view "all" = [] <-> videoGroups s = []).
Proof.
  cbv zeta.
  assert (Hall : forall c, c = "all" ->
            Permutation (filteredVideoGroups Date_getTime localeCompare
                           (set_selectedCategory c s)) (videoGroups s)).
  { intros c ->.
    exact (ComponentFacts.view_all Date_getTime localeCompare
             (set_selectedCategory "all" s) eq_refl). }
  assert (Hcat : forall c, c <> "all" ->
            Permutation (filteredVideoGroups Date_getTime localeCompare
                           (set_selectedCategory c s))
                        (List.filter (category_is c) (videoGroups s))).
  { intros c Hc.
    exact (ComponentFacts.view_category Date_getTime localeCompare
             (set_selectedCategory c s) Hc). }
  assert (Hlisted : forall c, In c (tl (allCategories s))
            <-> c <> "" /\ exists g, In g (videoGroups s) /\ category g = Some c).
  { intros c. unfold allCategories. simpl tl.
    rewrite ComponentFacts.new_Set_first_seen, ComponentFacts.first_seen_In.
    apply ComponentFacts.categories_In. }
  split; [|split].
  - intros c Hc. apply Hlisted in Hc as (_ & g & Hg & Hgc). intros Hnil.
    destruct (String.eqb_spec c "all") as [He|Hne].
    + pose proof (Hall c He) as Hp. rewrite Hnil in Hp.
      apply Permutation_nil in Hp. rewrite Hp in Hg. destruct Hg.
    + pose proof (Hcat c Hne) as Hp. rewrite Hnil in Hp.
      apply Permutation_nil in Hp.
      assert (Hin : In g (List.filter (category_is c) (videoGroups s))).
      { apply filter_In. split; [exact Hg|]. now apply ComponentFacts.category_is_spec. }
      rewrite Hp in Hin. destruct Hin.
  - intros c Hne Hnot.
    assert (Hc : c <> "all").
    { intros ->. apply Hnot. unfold allCategories. now left. }
    assert (Hf : List.filter (category_is c) (videoGroups s) = []).
    { destruct (List.filter (category_is c) (videoGroups s)) as [|g rest] eqn:Hfil;
        [reflexivity|].
      assert (Hin : In g (List.filter (category_is c) (videoGroups s)))
        by (rewrite Hfil; now left).
      apply filter_In in Hin as [Hg Hgc]. apply ComponentFacts.category_is_spec in Hgc.
      exfalso. apply Hnot. unfold allCategories. right. apply Hlisted. eauto. }
    pose proof (Hcat c Hc) as Hp. rewrite Hf in Hp.
    now apply Permutation_sym, Permutation_nil in Hp.
  - pose proof (Hall "all" eq_refl) as Hp. split; intros H.
    + rewrite H in Hp. now apply Permutation_nil in Hp.
    + rewrite H in Hp. now apply Permutation_sym, Permutation_nil in Hp.
Qed.

Lemma listed_categories_witness :
  let s := Examples.showing [Examples.vlog; Examples.lesson; Examples.unrated]
             "all" by_popularity in
  In "Tutorial" (tl (allCategories s))
  /\ Examples.shown (set_selectedCategory "Tutorial" s) <> []
  /\ ~ In "Music Video" (allCategories s)
  /\ Examples.shown (set_selectedCategory "Music Video" s) = [].
Proof.
  cbv zeta.
  assert (H1 : In "Tutorial"
                 (tl (allCategories
                        (Examples.showing [Examples.vlog; Examples.lesson; Examples.unrated]
                           "all" by_popularity)))) by (simpl; tauto).
  assert (H2 : ~ In "Music Video"
                   (allCategories
                      (Examples.showing [Examples.vlog; Examples.lesson; Examples.unrated]
                         "all" by_popularity))).
  { simpl. intros H. repeat (destruct H as [H|H]; [discriminate|]). exact H. }
  destruct (listed_categories_have_groups Examples.no_dates Examples.ordinal_compare
              (Examples.showing [Examples.vlog; Examples.lesson; Examples.unrated]
                 "all" by_popularity)) as (Ha & Hb & _).
  split; [exact H1|]. split; [exact (Ha "Tutorial" H1)|]. split; [exact H2|].
  apply (Hb "Music Video"); [discriminate|exact H2].
Defined.

(** X16.  Sorted by title, the view is in ascending order for
    [localeCompare], each group standing before all the later ones,
    whenever [localeCompare] is an ordering: a positive answer one way means
    a non-positive one the other way, and non-positive answers chain. *)
Theorem sorting_by_title Date_getTime (localeCompare : string -> string -> Q)
    (s : State) :
  (forall a b, (0 < localeCompare a b)%Q -> (localeCompare b a <= 0)%Q) ->
  (forall a b c, (localeCompare a b <= 0)%Q -> (localeCompare b c <= 0)%Q ->
                 (localeCompare a c <= 0)%Q) ->
  StronglySorted (fun a b => (localeCompare (title a) (title b) <= 0)%Q)
    (filteredVideoGroups Date_getTime localeCompare (set_sortBy by_title s)).
Proof.
  intros Htot Htrans. unfold filteredVideoGroups.
  apply (Array_sort_sorted_by _ (fun _ => True)).
  - intros a b _ _ H. apply Qle_bool_iff in H. exact H.
  - intros a b _ _ H. apply Htot.
    destruct (Qlt_le_dec 0 (localeCompare (title a) (title b))) as [Hlt|Hle];
      [exact Hlt|].
    apply Qle_bool_iff in Hle. unfold SortCompare, comparefn in H. simpl in H. congruence.
  - intros a b c _ _ _. apply Htrans.
  - apply List.Forall_forall. intros g _. exact I.
Qed.

Lemma sorting_by_title_witness :
  Examples.shown
    (Examples.showing
       [Examples.video "apple" None None; Examples.video "Banana" None None;
        Examples.video "Cherry" None None] "all" by_title)
  = [Examples.video "Banana" None None; Examples.video "Cherry" None None;
     Examples.video "apple" None None]
  /\ StronglySorted
       (fun a b => (Examples.ordinal_compare (title a) (title b) <= 0)%Q)
       (Examples.shown
          (set_sortBy by_title
             (Examples.showing
                [Examples.video "apple" None None; Examples.video "Banana" None None;
                 Examples.video "Cherry" None None] "all" by_popularity))).
Proof.
  split; [reflexivity|].
  exact (sorting_by_title Examples.no_dates Examples.ordinal_compare _
           ordinal_compare_total ordinal_compare_trans).
Defined.

(** X17.  Sorted by date, the view is most recent first whenever every
    group's date is missing, empty or parses, a missing or empty date
    counting as time 0.  A group whose date does not parse makes the
    comparator answer [NaN] against every group, in both directions, which
    the sort takes for equal. *)
Theorem sorting_by_date Date_getTime localeCompare :
  (forall s : State,
      Forall (dated Date_getTime) (videoGroups s) ->
      StronglySorted (fun a b => (time_of Date_getTime b <= time_of Date_getTime a)%Q)
        (filteredVideoGroups Date_getTime localeCompare (set_sortBy by_date s)))
  /\ (forall g, uploadDate g = None \/ uploadDate g = Some "" ->
                upload_time Date_getTime g = Num 0)
  /\ (forall a b, upload_time Date_getTime a = NaN ->
        comparefn Date_getTime localeCompare by_date a b = NaN
        /\ comparefn Date_getTime localeCompare by_date b a = NaN
        /\ SortCompare (comparefn Date_getTime localeCompare by_date) a b = 0%Q
        /\ SortCompare (comparefn Date_getTime localeCompare by_date) b a = 0%Q).
Proof.
  split; [|split].
  - intros s Hd. unfold filteredVideoGroups.
    apply (Array_sort_sorted_by _ (dated Date_getTime)).
    + intros a b [ta Ha] [tb Hb] H. unfold SortCompare, comparefn, time_of in *.
      rewrite Ha, Hb in *. simpl in H. apply Qle_bool_iff in H. lra.
    + intros a b [ta Ha] [tb Hb] H. unfold SortCompare, comparefn, time_of in *.
      rewrite Ha, Hb in *. simpl in H.
      destruct (Qlt_le_dec 0 (tb - ta)) as [Hlt|Hle]; [lra|].
      apply Qle_bool_iff in Hle. congruence.
    + intros a b c _ _ _ H1 H2. lra.
    + simpl. destruct (negb (selectedCategory s =? "all")%string);
        [now apply Forall_filter_keep|exact Hd].
  - intros g [H|H]; unfold upload_time; rewrite H; reflexivity.
  - intros a b Ha. unfold SortCompare, comparefn. rewrite Ha. simpl.
    destruct (upload_time Date_getTime b); repeat split.
Qed.

Lemma sorting_by_date_witness :
  let groups := [Examples.uploaded "older" (Some "2023-10-27");
                 Examples.uploaded "undated" None;
                 Examples.uploaded "newer" (Some "2024-01-05");
                 Examples.uploaded "blank" (Some "")] in
  Forall (dated Examples.calendar) groups
  /\ filteredVideoGroups Examples.calendar Examples.ordinal_compare
       (Examples.showing groups "all" by_date)
     = [Examples.uploaded "newer" (Some "2024-01-05");
        Examples.uploaded "older" (Some "2023-10-27");
        Examples.uploaded "undated" None;
        Examples.uploaded "blank" (Some "")]
  /\ StronglySorted
       (fun a b => (time_of Examples.calendar b <= time_of Examples.calendar a)%Q)
       (filteredVideoGroups Examples.calendar Examples.ordinal_compare
          (set_sortBy by_date (Examples.showing groups "all" by_popularity))).
Proof.
  cbv zeta.
  assert (Hd : Forall (dated Examples.calendar)
                 [Examples.uploaded "older" (Some "2023-10-27");
                  Examples.uploaded "undated" None;
                  Examples.uploaded "newer" (Some "2024-01-05");
                  Examples.uploaded "blank" (Some "")]).
  { repeat constructor; eexists; reflexivity. }
  split; [exact Hd|]. split; [reflexivity|].
  exact (proj1 (sorting_by_date Examples.calendar Examples.ordinal_compare)
           (Examples.showing _ "all" by_popularity) Hd).
Defined.

End PresentationCoverage.

(* ===================================================================== *)
(** ** The cache under overlapping calls *)
(* ===================================================================== *)

Module AsyncCoverage.
Import Model GeminiService AsyncService.

Lemma In_drop_nth {A : Type} (x : A) i l : In x (drop_nth i l) -> In x l.
Proof.
  revert i. induction l as [|y rest IH]; intros i H; [destruct i; exact H|].
  destruct i as [|j]; simpl in H.
  - now right.
  - destruct H as [H|H]; [now left|right; now apply (IH j)].
Qed.

Section Interleaved.
Variable URL : URLConstructor.
Variable trim : string -> string.
Variable JSON_parse : string -> option (list VideoGroup).
Variable genAI : GenAI.

(** A call run to completion is its two halves with nothing in between. *)
Lemma call_in_two_halves url st :
  let whole := findVideosInUrl URL trim JSON_parse genAI url st in
  match begin_call url (mkAsync st []) with
  | (Some p, a) => p = fst whole /\ settled a = snd whole /\ in_flight a = []
  | (None, a) =>
      let (r, a') := settle_call URL trim JSON_parse genAI 0 a in
      r = Some (fst whole) /\ settled a' = snd whole /\ in_flight a' = []
  end.
Proof.
  cbv zeta. unfold begin_call, findVideosInUrl, settle_call. simpl.
  destruct (cache st !! url) as [cached|]; [repeat split|]. simpl.
  destruct (analyze URL trim JSON_parse genAI (calls st) url); repeat split.
Qed.

Lemma step_keeps_entry e st url v :
  cache (settled st) !! url = Some v -> quiet url st ->
  cache (settled (step URL trim JSON_parse genAI e st)) !! url = Some v
  /\ quiet url (step URL trim JSON_parse genAI e st).
Proof.
  intros Hc Hq. destruct e as [u|i]; simpl.
  - unfold begin_call. destruct (cache (settled st) !! u) as [cached|] eqn:Hu; simpl.
    + split; assumption.
    + split; [exact Hc|]. intros n Hin. apply in_app_or in Hin as [Hin|Hin].
      * exact (Hq n Hin).
      * destruct Hin as [Hin|[]]. injection Hin as -> _. congruence.
  - unfold settle_call.
    destruct (List.nth_error (in_flight st) i) as [[u n]|] eqn:Hn; simpl;
      [|split; assumption].
    assert (Hne : u <> url).
    { intros ->. apply (Hq n). eapply List.nth_error_In. exact Hn. }
    destruct (analyze URL trim JSON_parse genAI n u); simpl.
    + split; [now rewrite lookup_insert_ne|].
      intros m Hin. apply In_drop_nth in Hin. exact (Hq m Hin).
    + split; [exact Hc|]. intros m Hin. apply In_drop_nth in Hin. exact (Hq m Hin).
Qed.
End Interleaved.

(** X1.  Calls of the service may overlap: each looks the cache up before
    it awaits the model and writes it afterwards.  Once a URL is cached and
    no call for it is in flight, its entry is never replaced or dropped,
    however further calls, for this or for other URLs, are made and
    answered in between one another: no call for it is ever in flight
    again, and a call for it returns the cached value at once, without
    invoking the model. *)
Theorem settled_entry_is_kept URL trim JSON_parse genAI (es : list Step)
    (st : State) (url : string) (v : list VideoGroup) :
  cache (settled st) !! url = Some v ->
  quiet url st ->
  let st' := steps URL trim JSON_parse genAI es st in
  cache (settled st') !! url = Some v
  /\ quiet url st'
  /\ begin_call url st' = (Some (Resolved v), st').
Proof.
  intros Hc Hq. cbv zeta.
  assert (H : cache (settled (steps URL trim JSON_parse genAI es st)) !! url = Some v
              /\ quiet url (steps URL trim JSON_parse genAI es st)).
  { revert st Hc Hq. induction es as [|e rest IH]; intros st Hc Hq; [now split|].
    simpl. destruct (step_keeps_entry URL trim JSON_parse genAI e st url v Hc Hq)
      as [Hc' Hq'].
    now apply IH. }
  destruct H as [Hc' Hq']. split; [exact Hc'|]. split; [exact Hq'|].
  unfold begin_call. now rewrite Hc'.
Qed.

Lemma settled_entry_is_kept_witness :
  let parse := Examples.parses_two "[1]" [Examples.hit] "[2]" [Examples.vlog] in
  let model := Examples.first_then "[1]" "[2]" in
  let st := steps WHATWG.URL Examples.ascii_trim parse model
              [Call "https://a.test"; Answer 0] (mkAsync initial []) in
  let st' := steps WHATWG.URL Examples.ascii_trim parse model
               [Call "https://b.test"; Call "https://a.test"; Call "https://c.test";
                Answer 1; Call "https://b.test"; Answer 0; Answer 0] st in
  cache (settled st) !! "https://a.test" = Some [Examples.hit]
  /\ quiet "https://a.test" st
  /\ cache (settled st') !! "https://a.test" = Some [Examples.hit]
  /\ calls (settled st') = 4.
Proof.
  cbv zeta.
  assert (Hc : cache (settled
                  (steps WHATWG.URL Examples.ascii_trim
                     (Examples.parses_two "[1]" [Examples.hit] "[2]" [Examples.vlog])
                     (Examples.first_then "[1]" "[2]")
                     [Call "https://a.test"; Answer 0] (mkAsync initial [])))
               !! "https://a.test" = Some [Examples.hit]) by (vm_compute; reflexivity).
  assert (Hq : quiet "https://a.test"
                 (steps WHATWG.URL Examples.ascii_trim
                    (Examples.parses_two "[1]" [Examples.hit] "[2]" [Examples.vlog])
                    (Examples.first_then "[1]" "[2]")
                    [Call "https://a.test"; Answer 0] (mkAsync initial [])))
    by (intros n H; vm_compute in H; exact H).
  split; [exact Hc|]. split; [exact Hq|].
  split; [|vm_compute; reflexivity].
  exact (proj1 (settled_entry_is_kept WHATWG.URL Examples.ascii_trim
                  (Examples.parses_two "[1]" [Examples.hit] "[2]" [Examples.vlog])
                  (Examples.first_then "[1]" "[2]")
                  [Call "https://b.test"; Call "https://a.test"; Call "https://c.test";
                   Answer 1; Call "https://b.test"; Answer 0; Answer 0]
                  _ "https://a.test" [Examples.hit] Hc Hq)).
Defined.

(** Why the entry must be settled: two calls for one URL made before
    either is answered both miss the cache, and the answer to the second
    replaces what the first stored. *)
Example overlapping_calls_replace_the_entry :
  let parse := Examples.parses_two "[1]" [Examples.hit] "[2]" [Examples.vlog] in
  let model := Examples.first_then "[1]" "[2]" in
  let one := steps WHATWG.URL Examples.ascii_trim parse model
               [Call "https://a.test"; Call "https://a.test"; Answer 0]
               (mkAsync initial []) in
  let two := step WHATWG.URL Examples.ascii_trim parse model (Answer 0) one in
  cache (settled one) !! "https://a.test" = Some [Examples.hit]
  /\ in_flight one = [("https://a.test", 1)]
  /\ cache (settled two) !! "https://a.test" = Some [Examples.vlog]
  /\ calls (settled two) = 2.
Proof. vm_compute. repeat split. Qed.

End AsyncCoverage.
